(** * AskLang: URL extraction, tool-output collection, citation grounding,
    preamble injection and agent construction

    A shallow embedding of [utils/formatting.py], of [graph.py] (preamble,
    history, agent construction and invocation), of [utils/websum.py] and of
    the text escaping of [utils/ui.py].

    Text.  A Python [str] is modelled as a [string] whose characters are the
    code points U+0000..U+00FF.  Within that range the classes used by the
    code are the ones of CPython: [\s] of a [str] pattern is [str.isspace]
    per character, and [str.lower] maps A..Z and the upper-case letters of
    the Latin-1 supplement to their lower-case forms.

    The URL extractor is modelled a second time, over texts with any code
    point (module [Uni]): there [re.IGNORECASE] also takes the long s
    U+017F for the letter s of the pattern, and [\s] is all of
    [str.isspace].  The two extractors return the same on texts within
    U+0000..U+00FF ([UniAgree.extract_urls_agree]); the properties on the
    scheme of an extracted URL are stated over all of Unicode.

    Sets.  [set()] objects are [gset string]; membership is decided as in
    Python.  The order in which [list(s)] enumerates a set is that of the
    hash table and varies between processes for [str] keys, so it is a
    parameter of the model ([list_of_set]). *)

From Stdlib Require Import Ascii String NArith.
From stdpp Require Import base list strings sets gmap sorting.

(** ** Characters and strings *)

Module Char.

Definition code (c : ascii) : N := N_of_ascii c.

(** [\s] under [re.UNICODE] (the default for [str] patterns). *)
Definition isspace (c : ascii) : bool :=
  let n := code c in
  ((9 <=? n) && (n <=? 13) || (28 <=? n) && (n <=? 32)
   || (n =? 133) || (n =? 160))%N.

(** [str.lower] on one character. *)
Definition lower (c : ascii) : ascii :=
  let n := code c in
  if ((65 <=? n) && (n <=? 90)
      || (192 <=? n) && (n <=? 222) && negb (n =? 215))%N
  then ascii_of_N (n + 32) else c.

End Char.

Module Str.

(** [s.lower()] *)
Fixpoint lower (s : string) : string :=
  match s with
  | EmptyString => EmptyString
  | String c s' => String (Char.lower c) (lower s')
  end.

(** [c in chars] for a one-character [c] *)
Fixpoint has_char (c : ascii) (chars : string) : bool :=
  match chars with
  | EmptyString => false
  | String d chars' => if decide (c = d) then true else has_char c chars'
  end.

(** [s.startswith(p)] *)
Fixpoint startswith (p s : string) : bool :=
  match p, s with
  | EmptyString, _ => true
  | String a p', String b s' => if decide (a = b) then startswith p' s' else false
  | String _ _, EmptyString => false
  end.

(** [needle in hay] *)
Fixpoint contains (needle hay : string) : bool :=
  startswith needle hay
  || match hay with
     | EmptyString => false
     | String _ hay' => contains needle hay'
     end.

(** [s.rstrip(chars)]: drop the longest suffix made of characters of
    [chars]. *)
Fixpoint rstrip (chars s : string) : string :=
  match s with
  | EmptyString => EmptyString
  | String c s' =>
      match rstrip chars s' with
      | EmptyString => if has_char c chars then EmptyString else String c EmptyString
      | r => String c r
      end
  end.

(** [s.split("#")[0]]: the text before the first ['#'], all of [s] when
    there is none. *)
Fixpoint split_hash_0 (s : string) : string :=
  match s with
  | EmptyString => EmptyString
  | String c s' => if decide (c = "#"%char) then EmptyString else String c (split_hash_0 s')
  end.

(** Every character of [s] satisfies [p]. *)
Fixpoint all (p : ascii → bool) (s : string) : bool :=
  match s with
  | EmptyString => true
  | String c s' => p c && all p s'
  end.

End Str.

(** ** The URL pattern  [(https?://[^\s)]+)]  with [re.IGNORECASE] *)

Module Re.

(** A literal of the pattern under IGNORECASE, for subject characters
    within U+0000..U+00FF: the subject character is lower-cased and
    compared (beyond that range the long s U+017F is taken for s as well,
    see [Uni.accepts_ignorecase]).  Returns the consumed text and the
    rest. *)
Fixpoint lits_ignorecase (pat s : string) : option (string * string) :=
  match pat with
  | EmptyString => Some (EmptyString, s)
  | String l pat' =>
      match s with
      | String c r =>
          if decide (Char.lower c = l)
          then '(m, rest) ← lits_ignorecase pat' r; Some (String c m, rest)
          else None
      | EmptyString => None
      end
  end.

(** A literal without case ([:] and [/]): compared as it is. *)
Fixpoint lits (pat s : string) : option (string * string) :=
  match pat with
  | EmptyString => Some (EmptyString, s)
  | String l pat' =>
      match s with
      | String c r =>
          if decide (c = l)
          then '(m, rest) ← lits pat' r; Some (String c m, rest)
          else None
      | EmptyString => None
      end
  end.

(** [[^\s)]] *)
Definition url_char (c : ascii) : bool :=
  negb (Char.isspace c) && negb (bool_decide (c = ")"%char)).

(** Greedy [[^\s)]*]: the longest run and what follows it. *)
Fixpoint span_url_chars (s : string) : string * string :=
  match s with
  | EmptyString => (EmptyString, EmptyString)
  | String c s' =>
      if url_char c
      then let '(run, rest) := span_url_chars s' in (String c run, rest)
      else (EmptyString, s)
  end.

(** [://[^\s)]+] after the scheme letters. *)
Definition colon_slashes_run (s : string) : option (string * string) :=
  '(sep, r) ← lits "://" s;
  let '(run, rest) := span_url_chars r in
  match run with
  | EmptyString => None
  | _ => Some (sep +:+ run, rest)
  end.

(** One attempt of the whole pattern at the start of [s]: [http], then the
    greedy optional [s] (tried first, given up if the rest fails).  Returns
    group 1 and the text after the match. *)
Definition match_here (s : string) : option (string * string) :=
  '(http, r1) ← lits_ignorecase "http" s;
  let with_s :=
    '(s1, r2) ← lits_ignorecase "s" r1;
    '(tl, rest) ← colon_slashes_run r2;
    Some (http +:+ s1 +:+ tl, rest) in
  match with_s with
  | Some res => Some res
  | None => '(tl, rest) ← colon_slashes_run r1; Some (http +:+ tl, rest)
  end.

(** A match object: [m.start()] and [m.group(1)]. *)
Record rmatch := Match { start : nat; group1 : string }.

(** The scan of [finditer]: [pos] is the offset of [s] in the subject,
    [skip] the number of characters still covered by the previous match.
    At a free position the pattern is tried; after a match the scan resumes
    where the match ended. *)
Fixpoint scan (pos skip : nat) (s : string) : list rmatch :=
  match s with
  | EmptyString => []
  | String _ s' =>
      match skip with
      | S k => scan (S pos) k s'
      | O =>
          match match_here s with
          | Some (g, _) => Match pos g :: scan (S pos) (String.length g - 1) s'
          | None => scan (S pos) 0 s'
          end
      end
  end.

(** [_URL_RE.finditer(text)] *)
Definition finditer (text : string) : list rmatch := scan 0 0 text.

End Re.

(** ** utils/formatting.py *)

(** The characters [extract_urls] trims from the right of a match. *)
Definition TRAILING : string := ".,);]}".

(** [m.group(1).rstrip(".,);]}")] *)
Definition url_of_match (m : Re.rmatch) : string :=
  Str.rstrip TRAILING (Re.group1 m).

(** One round of the `seen`/`urls` loop shared by [extract_urls] and the
    collector: append [u] unless it was seen. *)
Definition add_unseen (st : gset string * list string) (u : string)
  : gset string * list string :=
  let '(seen, urls) := st in
  if decide (u ∈ seen) then (seen, urls) else ({[u]} ∪ seen, urls ++ [u]).

(** [extract_urls(text)]; [None] is Python's [None]. *)
Definition extract_urls (text : option string) : list string :=
  match text with
  | None | Some EmptyString => []
  | Some text =>
      (foldl (λ st m, add_unseen st (url_of_match m)) (∅, []) (Re.finditer text)).2
  end.

(** *** Duck-typed values

    The collector and the history normaliser look at attributes of arbitrary
    objects; all they observe of a value is its truth value and its [str()]. *)

Inductive pyval :=
| PyNone
| PyStr (s : string)
| PyObj (truth : bool) (text : string).

(** [bool(v)] *)
Definition truthy (v : pyval) : bool :=
  match v with
  | PyNone => false
  | PyStr s => negb (bool_decide (s = ""))
  | PyObj t _ => t
  end.

(** [str(v)] *)
Definition py_str (v : pyval) : string :=
  match v with
  | PyNone => "None"
  | PyStr s => s
  | PyObj _ text => text
  end.

(** [a or b] *)
Definition py_or (a b : pyval) : pyval := if truthy a then a else b.

(** A transcript entry as the collector sees it: the attributes it reads
    (absent when the object has none of that name) and the text [_flatten]
    gives for the whole object. *)
Record message := Message {
  attr_tool_name : option pyval;
  attr_name : option pyval;
  attr_content : option pyval;
  flattened : string
}.

(** [getattr(msg, name, "")] *)
Definition getattr_or_empty (a : option pyval) : pyval := default (PyStr "") a.

(** [tool_name = getattr(msg, "tool_name", "") or getattr(msg, "name", "")] *)
Definition tool_name_of (msg : message) : pyval :=
  py_or (getattr_or_empty (attr_tool_name msg)) (getattr_or_empty (attr_name msg)).

(** [content = getattr(msg, "content", "")], replaced by [_flatten(msg)]
    when falsy. *)
Definition content_of (msg : message) : pyval :=
  let content := getattr_or_empty (attr_content msg) in
  if truthy content then content else PyStr (flattened msg).

(** The inner loop [for u in extract_urls(str(content))]. *)
Definition harvest (st : gset string * list string) (content : pyval)
  : gset string * list string :=
  foldl add_unseen st (extract_urls (Some (py_str content))).

(** The body of the loop over messages. *)
Definition collect_step (st : gset string * list string) (msg : message)
  : gset string * list string :=
  let tool_name := tool_name_of msg in
  let content := content_of msg in
  if truthy tool_name then
    let name_l := Str.lower (py_str tool_name) in
    if Str.contains "tavily" name_l || Str.contains "search" name_l
       || Str.contains "tool" name_l
    then harvest st content
    else st
  else
    if Str.contains "http" (py_str content)
    then harvest st content
    else st.

(** [collect_urls_from_langgraph_messages(messages)] *)
Definition collect_urls_from_langgraph_messages (messages : list message)
  : list string :=
  (foldl collect_step (∅, []) messages).2.

Section Grounding.

(** [list(s)] for a set [s]: some enumeration of its elements. *)
Variable list_of_set : gset string → list string.

(** The body of [for u in answer_urls]. *)
Definition ground_step (allowed_set : gset string) (grounded : list string)
    (u : string) : list string :=
  let base := Str.split_hash_0 u in
  if decide (base ∈ allowed_set ∧ base ∉ grounded)
  then grounded ++ [base]
  else grounded.

(** The list [grounded] when the loop ends. *)
Definition grounded_of (answer_text : string) (allowed_urls : list string)
  : list string :=
  let answer_urls := extract_urls (Some answer_text) in
  let allowed_set : gset string := list_to_set (Str.split_hash_0 <$> allowed_urls) in
  foldl (ground_step allowed_set) [] answer_urls.

(** [enforce_grounded_citations(answer_text, allowed_urls)] *)
Definition enforce_grounded_citations (answer_text : string)
    (allowed_urls : list string) : list string :=
  match allowed_urls with
  | [] => extract_urls (Some answer_text)
  | _ :: _ =>
      let answer_urls := extract_urls (Some answer_text) in
      let allowed_set : gset string :=
        list_to_set (Str.split_hash_0 <$> allowed_urls) in
      let grounded := foldl (ground_step allowed_set) [] answer_urls in
      match grounded with
      | [] => take 3 (list_of_set allowed_set)
      | _ :: _ => grounded
      end
  end.

End Grounding.

(** Enumerations a set can have: each element once, in any order. *)
Definition set_enumeration (list_of_set : gset string → list string) : Prop :=
  ∀ X, list_of_set X ≡ₚ elements X.

(** ** graph.py *)

Module Graph.

(** *** History normalisation and preamble injection *)

(** An entry of the caller's history. *)
Inductive history_item :=
| Pair (role content : pyval)            (* a tuple of length 2 *)
| Dict (role content : option pyval)     (* a dict; [None]: key absent *)
| Other (text : string).                 (* anything else, with its [str()] *)

(** [_normalize_history(history)] *)
Definition _normalize_history (history : list history_item)
  : list (string * string) :=
  (λ item,
     match item with
     | Pair r c => (py_str r, py_str c)
     | Dict r c => (py_str (default (PyStr "user") r),
                    py_str (default (PyStr "") c))
     | Other text => ("user", text)
     end) <$> history.

(** [_inject_preamble(raw_history, preamble)] *)
Definition _inject_preamble (raw_history : list history_item)
    (preamble : string) : list (string * string) :=
  let history := _normalize_history raw_history in
  match history with
  | (role, content) :: _ =>
      if bool_decide (role = "system") && Str.contains preamble content
      then history
      else ("system", preamble) :: history
  | [] => ("system", preamble) :: history
  end.

(** A list of (role, content) tuples handed back as a history. *)
Definition as_history (msgs : list (string * string)) : list history_item :=
  (λ m, Pair (PyStr m.1) (PyStr m.2)) <$> msgs.

(** The number of system messages of a message list. *)
Definition count_system (msgs : list (string * string)) : nat :=
  length (filter (λ m, m.1 = "system") msgs).

(** *** Agent construction *)

Inductive exn :=
| RuntimeError (msg : string)
| TypeError.

(** Calls into the model and search packages. *)
Inductive call :=
| ChatOpenAI (model : string) (temperature : nat)
| TavilySearch (max_results : nat)
| create_react_agent_positional
| create_react_agent_keywords.

(** The agent object, as far as this module determines it. *)
Record agent := Agent { agent_model : string; agent_max_results : nat }.

(** A computation: the calls made so far and either a value or the
    exception that ended it. *)
Definition M (A : Type) : Type := list call * (exn + A).

Definition raise {A} (e : exn) : M A := ([], inl e).
Definition perform (c : call) : M unit := ([c], inr tt).

#[local] Instance M_ret : MRet M := λ A a, ([], inr a).
#[local] Instance M_bind : MBind M := λ A B k m,
  match m with
  | (log, inl e) => (log, inl e)
  | (log, inr a) => let '(log', r) := k a in (log ++ log', r)
  end.

(** [try: m except TypeError: h] *)
Definition try_TypeError {A} (m : M A) (h : M A) : M A :=
  match m with
  | (log, inl TypeError) => let '(log', r) := h in (log ++ log', r)
  | _ => m
  end.

Section Construction.

(** [load_dotenv()]: the environment once the [.env] file was read. *)
Variable load_dotenv : gmap string string → gmap string string.
(** Whether the installed [create_react_agent] takes [(model, tools)]
    positionally. *)
Variable positional_signature : bool.

(** [_require_env(var_name)] on environment [env] *)
Definition _require_env (env : gmap string string) (var_name : string)
  : M string :=
  match env !! var_name with
  | None | Some EmptyString =>
      raise (RuntimeError
               ("Missing environment variable: " +:+ var_name +:+ ". "
                +:+ "Please set it in your .env or your shell session."))
  | Some val => mret val
  end.

(** [build_agent(model_name)] started in environment [environ] *)
Definition build_agent (environ : gmap string string)
    (model_name : option string) : M agent :=
  let env := load_dotenv environ in
  _require_env env "OPENAI_API_KEY" ;;
  _require_env env "TAVILY_API_KEY" ;;
  let resolved_model :=
    match model_name with
    | Some (String _ _ as m) => m
    | _ => match env !! "OPENAI_MODEL" with
           | Some (String _ _ as m) => m
           | _ => "gpt-4o-mini"
           end
    end in
  perform (ChatOpenAI resolved_model 0) ;;
  perform (TavilySearch 5) ;;
  try_TypeError
    (perform create_react_agent_positional ;;
     if positional_signature then mret (Agent resolved_model 5)
     else raise TypeError)
    (perform create_react_agent_keywords ;;
     mret (Agent resolved_model 5)).

End Construction.

End Graph.

(** ** Notions used to state the properties *)

(** The first occurrences of a list: each element once, at the place where
    it first appears. *)
Fixpoint first_occurrences (l : list string) : list string :=
  match l with
  | [] => []
  | x :: l' => x :: filter (λ y, y ≠ x) (first_occurrences l')
  end.

(** Where, in the text, the regular expression first yields a match whose
    trimmed form is [u]. *)
Fixpoint first_start (u : string) (ms : list Re.rmatch) : option nat :=
  match ms with
  | [] => None
  | m :: ms' =>
      if decide (url_of_match m = u) then Some (Re.start m) else first_start u ms'
  end.

(** The citations the grounding step is to keep: of the URLs cited in the
    answer, in their order there, those whose fragment-stripped form is the
    fragment-stripped form of an allowed URL; each such form once. *)
Definition kept_citations (answer_text : string) (allowed_urls : list string)
  : list string :=
  first_occurrences
    (filter (λ base, base ∈ Str.split_hash_0 <$> allowed_urls)
       (Str.split_hash_0 <$> extract_urls (Some answer_text))).

(** ** More of utils/formatting.py *)

Module Py.

(** [sep.join(parts)] *)
Fixpoint join (sep : string) (parts : list string) : string :=
  match parts with
  | [] => ""
  | x :: rest =>
      match rest with
      | [] => x
      | _ :: _ => x +:+ sep +:+ join sep rest
      end
  end.

(** [s.split(c)] for a one-character separator [c] *)
Fixpoint split_char (c : ascii) (s : string) : list string :=
  match s with
  | EmptyString => [EmptyString]
  | String d s' =>
      if decide (d = c) then EmptyString :: split_char c s'
      else match split_char c s' with
           | x :: rest => String d x :: rest
           | [] => [String d EmptyString]
           end
  end.

End Py.

(** The line feed. *)
Definition LF : ascii := "010"%char.

(** [render_sources(links)] *)
Definition render_sources (links : list string) : string :=
  match links with
  | [] => "_No sources._"
  | _ :: _ => Py.join (String LF "") ((λ u, "- " +:+ u) <$> links)
  end.

(** Whether the collector scans a message: the condition under which the
    loop body reaches [extract_urls]. *)
Definition scanned (msg : message) : bool :=
  let tool_name := tool_name_of msg in
  if truthy tool_name then
    let name_l := Str.lower (py_str tool_name) in
    Str.contains "tavily" name_l || Str.contains "search" name_l
    || Str.contains "tool" name_l
  else Str.contains "http" (py_str (content_of msg)).

(** The URLs a message offers to the collector. *)
Definition urls_of_message (msg : message) : list string :=
  if scanned msg then extract_urls (Some (py_str (content_of msg))) else [].

(** ** More of graph.py *)

Module Agent.

Section Preamble.

(** The base instruction [PREAMBLE], a text constant of the module; it has
    characters beyond U+00FF and is left open here. *)
Variable PREAMBLE : string.

(** The hints of [make_preamble], by answer mode. *)
Definition MODE_HINTS : gmap string string :=
  {[ "facts" := "Write a short, factual answer followed by Sources.";
     "summary" := "Write a concise paragraph-style summary followed by Sources.";
     "links" := "Do not elaborate; return a one-sentence answer and a bulleted Sources list." ]}.

(** [make_preamble(answer_mode)] *)
Definition make_preamble (answer_mode : string) : string :=
  let mode_hint :=
    default "Write a short, factual answer followed by Sources."
      (MODE_HINTS !! answer_mode) in
  PREAMBLE +:+ " " +:+ mode_hint.

(** [preamble_override or PREAMBLE] *)
Definition effective_preamble (preamble_override : option string) : string :=
  match preamble_override with
  | Some (String _ _ as p) => p
  | _ => PREAMBLE
  end.

End Preamble.

End Agent.

Module Invoke.

(** A message of the agent's result: what the collector reads of it, and
    its attribute [tool_calls]. *)
Record lg_message := LgMessage {
  seen_as : message;
  attr_tool_calls : option pyval
}.

(** The entries of the tool trace. *)
Inductive trace_entry :=
| AssistantCalls (tool_calls : pyval)
| ToolOutput (tool_name content : pyval).

(** The dict [invoke_agent] returns; [raw] is the agent's result, of which
    only the entry "messages" is read (absent: [None]). *)
Record outcome := Outcome {
  final_text : pyval;
  tool_trace : list trace_entry;
  raw : option (list lg_message)
}.

(** The body of the loop that builds the tool trace. *)
Definition trace_step (trace : list trace_entry) (msg : lg_message)
  : list trace_entry :=
  let trace :=
    match attr_tool_calls msg with
    | Some tool_calls =>
        if truthy tool_calls then trace ++ [AssistantCalls tool_calls] else trace
    | None => trace
    end in
  match attr_tool_name (seen_as msg) with
  | Some tool_name =>
      if truthy tool_name
      then trace ++ [ToolOutput tool_name
                       (getattr_or_empty (attr_content (seen_as msg)))]
      else trace
  | None => trace
  end.

Section Invoke.

Variable PREAMBLE : string.

(** [agent.invoke({"messages": messages})]: the entry "messages" of the
    result. *)
Variable agent : list (string * string) → option (list lg_message).

(** [invoke_agent(agent, history, preamble_override)] *)
Definition invoke_agent (history : list Graph.history_item)
    (preamble_override : option string) : outcome :=
  let preamble := Agent.effective_preamble PREAMBLE preamble_override in
  let messages := Graph._inject_preamble history preamble in
  let result := agent messages in
  let lg_messages := default [] result in
  let final_text :=
    match last lg_messages with
    | Some final =>
        py_or (getattr_or_empty (attr_content (seen_as final)))
              (PyStr (flattened (seen_as final)))
    | None => PyStr ""
    end in
  let tool_trace := foldl trace_step [] lg_messages in
  Outcome final_text tool_trace result.

End Invoke.

End Invoke.

(** ** utils/websum.py *)

Module Websum.

(** The first [n] characters. *)
Fixpoint take (n : nat) (s : string) : string :=
  match n, s with
  | S k, String c s' => String c (take k s')
  | _, _ => EmptyString
  end.

(** [s[:n]]: a negative [n] counts from the end. *)
Definition slice_to (n : Z) (s : string) : string :=
  if (0 <=? n)%Z then take (Z.to_nat n) s
  else take (String.length s - Z.to_nat (- n)) s.

(** [s.lstrip()] *)
Fixpoint lstrip (s : string) : string :=
  match s with
  | EmptyString => EmptyString
  | String c s' => if Char.isspace c then lstrip s' else s
  end.

(** [s.rstrip()] *)
Fixpoint rstrip (s : string) : string :=
  match s with
  | EmptyString => EmptyString
  | String c s' =>
      match rstrip s' with
      | EmptyString => if Char.isspace c then EmptyString else String c EmptyString
      | r => String c r
      end
  end.

(** [s.strip()] *)
Definition strip (s : string) : string := lstrip (rstrip s).

(** What [summarize_url] calls. *)
Inductive call :=
| WebBaseLoader_load (url : string)
| ChatOpenAI (model : string) (temperature : nat)
| llm_invoke (prompt : string).

Definition FAILED : string := "_Failed to fetch or parse content from the URL._".

Section Summarize.

(** [WebBaseLoader(url).load()]: the [page_content] of each document. *)
Variable load : string → list string.

(** [llm.invoke(prompt)] for the model of that name: the attribute
    [content] of the response, if it has one, and its [str()]. *)
Variable llm : string → string → option pyval * string.

(** The instructions that open the prompt, a text constant of the module;
    it has a character beyond U+00FF and is left open here. *)
Variable INSTRUCTIONS : string.

(** [_load_url_text(url, max_chars)] *)
Definition _load_url_text (url : string) (max_chars : Z) : string :=
  let docs := load url in
  let text :=
    Py.join (String LF (String LF ""))
      (filter (λ page_content, page_content ≠ "") docs) in
  slice_to max_chars text.

(** The prompt built around the page text. *)
Definition prompt_for (text : string) : string :=
  INSTRUCTIONS
  +:+ "=== PAGE TEXT START ===" +:+ String LF "" +:+ text +:+ String LF ""
  +:+ "=== PAGE TEXT END ===".

(** [summarize_url(url, model_name)]: the calls made and the value
    returned. *)
Definition summarize_url (url : string) (model_name : string)
  : list call * pyval :=
  let text := _load_url_text url 12000 in
  match strip text with
  | EmptyString => ([WebBaseLoader_load url], PyStr FAILED)
  | String _ _ =>
      let prompt := prompt_for text in
      let resp := llm model_name prompt in
      let content :=
        py_or (default PyNone resp.1) (PyStr resp.2) in
      ([WebBaseLoader_load url; ChatOpenAI model_name 0; llm_invoke prompt],
       content)
  end.

End Summarize.

End Websum.

(** ** utils/ui.py *)

Module Ui.

(** [s.replace(c, by)] for a one-character [c] *)
Fixpoint replace_char (c : ascii) (by_ : string) (s : string) : string :=
  match s with
  | EmptyString => EmptyString
  | String d s' =>
      if decide (d = c) then by_ +:+ replace_char c by_ s'
      else String d (replace_char c by_ s')
  end.

(** [html.escape(s)] (with [quote=True]): five replacements, in this
    order. *)
Definition html_escape (s : string) : string :=
  let s := replace_char "&"%char "&amp;" s in
  let s := replace_char "<"%char "&lt;" s in
  let s := replace_char ">"%char "&gt;" s in
  let s := replace_char "034"%char "&quot;" s in
  replace_char "'"%char "&#x27;" s.

(** [_escape_user_text(text)] *)
Definition _escape_user_text (text : option string) : string :=
  match text with
  | None => ""
  | Some text => replace_char LF "<br/>" (html_escape text)
  end.

End Ui.

(** What a character becomes in [_escape_user_text]. *)
Definition escaped_char (c : ascii) : string :=
  if decide (c = "&"%char) then "&amp;"
  else if decide (c = "<"%char) then "&lt;"
  else if decide (c = ">"%char) then "&gt;"
  else if decide (c = "034"%char) then "&quot;"
  else if decide (c = "'"%char) then "&#x27;"
  else if decide (c = LF) then "<br/>"
  else String c "".

(** Reading an escaped text back: [skip] characters belong to the entity
    or tag just read. *)
Fixpoint unescape_from (skip : nat) (s : string) : string :=
  match s with
  | EmptyString => EmptyString
  | String c s' =>
      match skip with
      | S k => unescape_from k s'
      | O =>
          if Str.startswith "&amp;" s then String "&"%char (unescape_from 4 s')
          else if Str.startswith "&lt;" s then String "<"%char (unescape_from 3 s')
          else if Str.startswith "&gt;" s then String ">"%char (unescape_from 3 s')
          else if Str.startswith "&quot;" s then String "034"%char (unescape_from 5 s')
          else if Str.startswith "&#x27;" s then String "'"%char (unescape_from 5 s')
          else if Str.startswith "<br/>" s then String LF (unescape_from 4 s')
          else String c (unescape_from 0 s')
      end
  end.

(** ** The extractor over all of Unicode

    [extract_urls] once more, for texts with any code point: a character
    is its code point and a text the list of its characters.  Here [\s] is
    the whole of [str.isspace], and [re.IGNORECASE] accepts for the letter
    [s] of the pattern, besides [s] and [S], the long s U+017F.  On texts
    within U+0000..U+00FF this is the extractor above (see
    [UniAgree.extract_urls_agree]). *)

Module Uni.

(** The text of a literal. *)
Fixpoint of_string (s : string) : list N :=
  match s with
  | EmptyString => []
  | String c s' => N_of_ascii c :: of_string s'
  end.

(** [\s] under [re.UNICODE]: the white space of [str.isspace]. *)
Definition isspace (c : N) : bool :=
  ((9 <=? c) && (c <=? 13) || (28 <=? c) && (c <=? 32)
   || (c =? 133) || (c =? 160) || (c =? 5760)
   || (8192 <=? c) && (c <=? 8202)
   || (c =? 8232) || (c =? 8233) || (c =? 8239) || (c =? 8287)
   || (c =? 12288))%N.

(** [re.IGNORECASE] for a letter [l] among h, t, p, s of the pattern: the
    subject character [c] is accepted when it is [l], the capital of [l],
    or, for [s], U+017F (the engine lower-cases [c] and compares; for [s]
    it also accepts the other lower-case character with the same
    capital). *)
Definition accepts_ignorecase (l c : N) : bool :=
  ((c =? l) || (65 <=? c) && (c <=? 90) && (c + 32 =? l)
   || (l =? 115) && (c =? 383))%N.

(** The letters of the pattern, under IGNORECASE. *)
Fixpoint lits_ignorecase (pat s : list N) : option (list N * list N) :=
  match pat with
  | [] => Some ([], s)
  | l :: pat' =>
      match s with
      | c :: r =>
          if accepts_ignorecase l c
          then '(m, rest) ← lits_ignorecase pat' r; Some (c :: m, rest)
          else None
      | [] => None
      end
  end.

(** [:] and [/]: compared as they are. *)
Fixpoint lits (pat s : list N) : option (list N * list N) :=
  match pat with
  | [] => Some ([], s)
  | l :: pat' =>
      match s with
      | c :: r =>
          if decide (c = l)
          then '(m, rest) ← lits pat' r; Some (c :: m, rest)
          else None
      | [] => None
      end
  end.

(** [[^\s)]] *)
Definition url_char (c : N) : bool := negb (isspace c) && negb (c =? 41)%N.

(** Greedy [[^\s)]*] *)
Fixpoint span_url_chars (s : list N) : list N * list N :=
  match s with
  | [] => ([], [])
  | c :: s' =>
      if url_char c
      then let '(run, rest) := span_url_chars s' in (c :: run, rest)
      else ([], s)
  end.

(** [://[^\s)]+] *)
Definition colon_slashes_run (s : list N) : option (list N * list N) :=
  '(sep, r) ← lits (of_string "://") s;
  let '(run, rest) := span_url_chars r in
  match run with
  | [] => None
  | _ :: _ => Some (sep ++ run, rest)
  end.

(** One attempt of the pattern at the start of [s]. *)
Definition match_here (s : list N) : option (list N * list N) :=
  '(http, r1) ← lits_ignorecase (of_string "http") s;
  let with_s :=
    '(s1, r2) ← lits_ignorecase (of_string "s") r1;
    '(tl, rest) ← colon_slashes_run r2;
    Some (http ++ s1 ++ tl, rest) in
  match with_s with
  | Some res => Some res
  | None => '(tl, rest) ← colon_slashes_run r1; Some (http ++ tl, rest)
  end.

(** A match object: [m.start()] and [m.group(1)]. *)
Record rmatch := Match { start : nat; group1 : list N }.

(** The scan of [finditer], as in [Re.scan]. *)
Fixpoint scan (pos skip : nat) (s : list N) : list rmatch :=
  match s with
  | [] => []
  | _ :: s' =>
      match skip with
      | S k => scan (S pos) k s'
      | O =>
          match match_here s with
          | Some (g, _) => Match pos g :: scan (S pos) (length g - 1) s'
          | None => scan (S pos) 0 s'
          end
      end
  end.

(** [_URL_RE.finditer(text)] *)
Definition finditer (text : list N) : list rmatch := scan 0 0 text.

(** [s.rstrip(chars)] *)
Fixpoint rstrip (chars s : list N) : list N :=
  match s with
  | [] => []
  | c :: s' =>
      match rstrip chars s' with
      | [] => if decide (c ∈ chars) then [] else [c]
      | r => c :: r
      end
  end.

Definition TRAILING : list N := of_string ".,);]}".

(** [m.group(1).rstrip(".,);]}")] *)
Definition url_of_match (m : rmatch) : list N := rstrip TRAILING (group1 m).

(** One round of the `seen`/`urls` loop. *)
Definition add_unseen (st : gset (list N) * list (list N)) (u : list N)
  : gset (list N) * list (list N) :=
  let '(seen, urls) := st in
  if decide (u ∈ seen) then (seen, urls) else ({[u]} ∪ seen, urls ++ [u]).

(** [extract_urls(text)] *)
Definition extract_urls (text : option (list N)) : list (list N) :=
  match text with
  | None | Some [] => []
  | Some text =>
      (foldl (λ st m, add_unseen st (url_of_match m)) (∅, []) (finditer text)).2
  end.

(** [str.casefold] of a character, as far as ASCII letters go: the
    capitals, the long s U+017F and the Kelvin sign U+212A are the
    characters that fold to an ASCII letter other than themselves.  The
    other characters are left as they are: none of them folds to an ASCII
    letter, and nothing below looks at what else they fold to. *)
Definition casefold (c : N) : N :=
  (if (65 <=? c) && (c <=? 90) then c + 32
   else if c =? 383 then 115
   else if c =? 8490 then 107
   else c)%N.

(** A text that begins with [http://] or [https://], letter case apart. *)
Definition has_scheme (u : list N) : Prop :=
  ∃ scheme rest,
    u = scheme ++ rest
    ∧ (casefold <$> scheme = of_string "http://"
       ∨ casefold <$> scheme = of_string "https://").

(** A text that is [http://] or [https://], letter case apart. *)
Definition bare_scheme (u : list N) : Prop :=
  casefold <$> u = of_string "http://" ∨ casefold <$> u = of_string "https://".

(** A match over U+0000..U+00FF, and a consumed text with its rest, as the
    same over all of Unicode. *)
Definition of_match (m : Re.rmatch) : rmatch :=
  Match (Re.start m) (of_string (Re.group1 m)).

Definition of_pair (p : string * string) : list N * list N :=
  (of_string p.1, of_string p.2).

End Uni.

(** * Properties *)

(** ** The examples of the documentation *)

Example extract_urls_ex1 :
  extract_urls (Some "see http://a.com and http://a.com again") = ["http://a.com"].
Proof. vm_compute. reflexivity. Qed.

Example extract_urls_ex2 :
  extract_urls (Some "Visit https://x.com/page.") = ["https://x.com/page"].
Proof. vm_compute. reflexivity. Qed.

Example extract_urls_ex3 :
  extract_urls (Some "(HTTP://A.com/x), hTTps://b.org/y#z; httpx://no http:// ")
  = ["HTTP://A.com/x"; "hTTps://b.org/y#z"].
Proof. vm_compute. reflexivity. Qed.

Example ground_ex1 :
  enforce_grounded_citations elements
    "See https://a.com/1#sec and also https://c.com/3"
    ["https://a.com/1"; "https://b.com/2"] = ["https://a.com/1"].
Proof. vm_compute. reflexivity. Qed.

(** ** Strings *)

Module StrFacts.

#[local] Arguments String.append !_ _ / : simpl nomatch.

Lemma app_assoc (a b c : string) : (a +:+ b) +:+ c = a +:+ (b +:+ c).
Proof. induction a as [|x a IH]; simpl; [done | by rewrite IH]. Qed.

Lemma lower_app (a b : string) :
  Str.lower (a +:+ b) = Str.lower a +:+ Str.lower b.
Proof. induction a as [|x a IH]; simpl; [done | by rewrite IH]. Qed.

Lemma startswith_app (p s : string) : Str.startswith p (p +:+ s) = true.
Proof. induction p as [|x p IH]; simpl; [done | by rewrite decide_True]. Qed.

(** [rstrip] cuts a suffix, and that suffix is made of [chars]. *)
Lemma rstrip_split (chars s : string) :
  ∃ tail, s = Str.rstrip chars s +:+ tail
          ∧ Str.all (λ c, Str.has_char c chars) tail = true.
Proof.
  induction s as [|c s (tail & Hs & Hall)]; simpl.
  - by exists "".
  - destruct (Str.rstrip chars s) as [|d r] eqn:Hr.
    + destruct (Str.has_char c chars) eqn:Hc.
      * exists (String c tail). simpl in *. subst s. by rewrite Hc, Hall.
      * exists tail. simpl in *. by subst s.
    + exists tail. split; [|done]. simpl in *. congruence.
Qed.

(** Nothing is cut from a string whose last character is kept. *)
Lemma rstrip_app_kept (chars a b : string) :
  Str.rstrip chars a = a →
  Str.rstrip chars (a +:+ b) = a +:+ Str.rstrip chars b.
Proof.
  induction a as [|c a IH]; simpl; [done|].
  destruct (Str.rstrip chars a) as [|d r] eqn:Hr.
  - destruct (Str.has_char c chars) eqn:Hc; [done|].
    intros [= <-]. simpl. by destruct (Str.rstrip chars b).
  - intros [= Ha]. rewrite IH by done. rewrite <- Ha. done.
Qed.

Lemma rstrip_snoc_kept (chars a : string) (c : ascii) :
  Str.has_char c chars = false →
  Str.rstrip chars (a +:+ String c "") = a +:+ String c "".
Proof.
  intros Hc. induction a as [|x a IH]; simpl.
  - by rewrite Hc.
  - rewrite IH. by destruct a.
Qed.

(** The text before the first ['#'] has no ['#']. *)
Lemma split_hash_0_no_hash (s : string) :
  Str.has_char "#"%char (Str.split_hash_0 s) = false.
Proof.
  induction s as [|c s IH]; simpl; [done|].
  case_decide as Hc; simpl; [done|].
  rewrite decide_False by congruence. done.
Qed.

End StrFacts.

(** ** The regular expression *)

Module ReFacts.

#[local] Arguments String.append !_ _ / : simpl nomatch.

Lemma lits_ignorecase_spec pat : ∀ s m rest,
  Re.lits_ignorecase pat s = Some (m, rest) →
  s = m +:+ rest ∧ Str.lower m = pat.
Proof.
  induction pat as [|l pat IH]; intros s m rest; simpl.
  - by intros [= <- <-].
  - destruct s as [|c r]; [done|]. case_decide as Hl; [|done].
    destruct (Re.lits_ignorecase pat r) as [[m' rest']|] eqn:E; simpl; [|done].
    intros [= <- <-]. destruct (IH _ _ _ E) as [-> <-]. simpl. by rewrite Hl.
Qed.

Lemma lits_spec pat : ∀ s m rest,
  Re.lits pat s = Some (m, rest) → m = pat ∧ s = pat +:+ rest.
Proof.
  induction pat as [|l pat IH]; intros s m rest; simpl.
  - by intros [= <- <-].
  - destruct s as [|c r]; [done|]. case_decide as Hl; [|done].
    destruct (Re.lits pat r) as [[m' rest']|] eqn:E; simpl; [|done].
    intros [= <- <-]. destruct (IH _ _ _ E) as [-> ->]. by subst.
Qed.

Lemma span_url_chars_spec s : ∀ run rest,
  Re.span_url_chars s = (run, rest) → s = run +:+ rest.
Proof.
  induction s as [|c s IH]; intros run rest; simpl.
  - by intros [= <- <-].
  - destruct (Re.url_char c).
    + destruct (Re.span_url_chars s) as [run' rest'].
      intros [= <- <-]. simpl. by rewrite (IH run' rest').
    + by intros [= <- <-].
Qed.

Lemma colon_slashes_run_spec s tl rest :
  Re.colon_slashes_run s = Some (tl, rest) →
  s = tl +:+ rest ∧ ∃ run, tl = "://" +:+ run.
Proof.
  unfold Re.colon_slashes_run.
  destruct (Re.lits "://" s) as [[sep r]|] eqn:E; simpl; [|done].
  destruct (Re.span_url_chars r) as [run rest'] eqn:Er.
  destruct run as [|c run]; [done|]. intros [= <- <-].
  apply lits_spec in E as [-> ->]. apply span_url_chars_spec in Er as ->.
  split; [|by eexists]. by rewrite !StrFacts.app_assoc.
Qed.

#[local] Ltac bind_step := cbv beta iota delta [mbind option_bind].

(** What one successful attempt of the pattern consumed: a scheme that
    lower-cases to [http://] or [https://], then a run; the text splits
    accordingly. *)
Lemma match_here_spec s g rest :
  Re.match_here s = Some (g, rest) →
  s = g +:+ rest
  ∧ ∃ scheme run, g = scheme +:+ run
      ∧ (Str.lower scheme = "http://" ∨ Str.lower scheme = "https://")
      ∧ Str.rstrip TRAILING scheme = scheme.
Proof.
  unfold Re.match_here.
  destruct (Re.lits_ignorecase "http" s) as [[http r1]|] eqn:E1; bind_step; [|done].
  apply lits_ignorecase_spec in E1 as [-> Hh].
  destruct (Re.lits_ignorecase "s" r1) as [[s1 r2]|] eqn:E2; bind_step.
  - apply lits_ignorecase_spec in E2 as [-> Hs].
    destruct (Re.colon_slashes_run r2) as [[tl rest']|] eqn:E3; bind_step.
    + intros [= <- <-]. apply colon_slashes_run_spec in E3 as [-> [run ->]].
      split; [by rewrite !StrFacts.app_assoc|].
      exists (http +:+ s1 +:+ "://"), run. split; [by rewrite !StrFacts.app_assoc|].
      split.
      * right. by rewrite !StrFacts.lower_app, Hh, Hs.
      * change "://" with (":/" +:+ "/").
        rewrite <- !StrFacts.app_assoc. by apply StrFacts.rstrip_snoc_kept.
    + clear E3.
      destruct (Re.colon_slashes_run (s1 +:+ r2)) as [[tl rest']|] eqn:E3; bind_step; [|done].
      intros [= <- <-]. apply colon_slashes_run_spec in E3 as [E3 [run ->]].
      rewrite E3. split; [by rewrite !StrFacts.app_assoc|].
      exists (http +:+ "://"), run. split; [by rewrite !StrFacts.app_assoc|].
      split.
      * left. by rewrite !StrFacts.lower_app, Hh.
      * change "://" with (":/" +:+ "/").
        rewrite <- !StrFacts.app_assoc. by apply StrFacts.rstrip_snoc_kept.
  - destruct (Re.colon_slashes_run r1) as [[tl rest']|] eqn:E3; bind_step; [|done].
    intros [= <- <-]. apply colon_slashes_run_spec in E3 as [-> [run ->]].
    split; [by rewrite !StrFacts.app_assoc|].
    exists (http +:+ "://"), run. split; [by rewrite !StrFacts.app_assoc|].
    split.
    + left. by rewrite !StrFacts.lower_app, Hh.
    + change "://" with (":/" +:+ "/").
      rewrite <- !StrFacts.app_assoc. by apply StrFacts.rstrip_snoc_kept.
Qed.

(** Every match reported by the scan sits in the subject at its start
    offset, and the pattern matches there. *)
Lemma scan_occurs s : ∀ pos skip m,
  m ∈ Re.scan pos skip s →
  ∃ pre post, s = pre +:+ Re.group1 m +:+ post
    ∧ Re.start m = pos + String.length pre
    ∧ Re.match_here (Re.group1 m +:+ post) = Some (Re.group1 m, post).
Proof.
  induction s as [|c s IH]; intros pos skip m.
  - by intros ?%elem_of_nil.
  - assert (∀ k, m ∈ Re.scan (S pos) k s →
      ∃ pre post, String c s = pre +:+ Re.group1 m +:+ post
        ∧ Re.start m = pos + String.length pre
        ∧ Re.match_here (Re.group1 m +:+ post) = Some (Re.group1 m, post)) as Hrec.
    { intros k (pre & post & -> & Hst & Hm)%IH.
      exists (String c pre), post. simpl. repeat split; [lia | done]. }
    cbn [Re.scan]. destruct skip as [|k]; [|by apply Hrec].
    destruct (Re.match_here (String c s)) as [[g rest]|] eqn:E; [|by apply Hrec].
    intros [->|Hin]%elem_of_cons; [|by eapply Hrec].
    exists "", rest. cbn [Re.group1 Re.start String.length].
    destruct (match_here_spec _ _ _ E) as [Hs _].
    rewrite <- Hs. repeat split; [lia | done].
Qed.

(** Matches are reported from left to right. *)
Lemma scan_sorted s : ∀ pos skip,
  StronglySorted (λ a b, Re.start a < Re.start b) (Re.scan pos skip s).
Proof.
  induction s as [|c s IH]; intros pos skip; cbn [Re.scan]; [constructor|].
  destruct skip as [|k]; [|apply IH].
  destruct (Re.match_here (String c s)) as [[g rest]|]; [|apply IH].
  constructor; [apply IH|]. apply Forall_forall. intros m Hm.
  destruct (scan_occurs _ _ _ _ Hm) as (pre & post & _ & Hst & _).
  cbn [Re.start]. lia.
Qed.

End ReFacts.

(** ** First occurrences *)

Module Occ.

Lemma elem_of_first_occurrences x (l : list string) : x ∈ first_occurrences l ↔ x ∈ l.
Proof.
  induction l as [|y l IH]; simpl; [done|].
  rewrite !elem_of_cons, list_elem_of_filter, IH.
  destruct (decide (x = y)); intuition.
Qed.

Lemma NoDup_first_occurrences l : NoDup (first_occurrences l).
Proof.
  induction l as [|y l IH]; simpl; constructor.
  - rewrite list_elem_of_filter. by intros [? _].
  - by apply NoDup_filter.
Qed.

(** Dropping from the first occurrences what an accumulator already holds. *)
Lemma filter_fresh_cons (acc : list string) x l :
  filter (λ y, y ∉ acc) (first_occurrences (x :: l))
  = if decide (x ∈ acc)
    then filter (λ y, y ∉ acc) (first_occurrences l)
    else x :: filter (λ y, y ∉ acc ++ [x]) (first_occurrences l).
Proof.
  simpl. case_decide as Hx.
  - rewrite filter_cons_False by auto.
    rewrite list_filter_filter. apply list_filter_iff.
    intros y. split; [tauto | intros Hy; split; [done | congruence]].
  - rewrite filter_cons_True by done. f_equal.
    rewrite list_filter_filter. apply list_filter_iff.
    intros y. rewrite elem_of_app, list_elem_of_singleton. tauto.
Qed.

(** The `seen`/`urls` loop computes the first occurrences. *)
Lemma foldl_add_unseen l : ∀ seen urls,
  (∀ x, x ∈ seen ↔ x ∈ urls) →
  let st := foldl add_unseen (seen, urls) l in
  st.2 = urls ++ filter (λ y, y ∉ urls) (first_occurrences l)
  ∧ (∀ x, x ∈ st.1 ↔ x ∈ st.2).
Proof.
  induction l as [|x l IH]; intros seen urls Hinv.
  - simpl. by rewrite app_nil_r.
  - cbn [foldl]. rewrite filter_fresh_cons.
    destruct (decide (x ∈ seen)) as [Hx|Hx].
    + replace (add_unseen (seen, urls) x) with (seen, urls)
        by (unfold add_unseen; by rewrite decide_True).
      rewrite decide_True by by apply Hinv. by apply IH.
    + replace (add_unseen (seen, urls) x) with ({[x]} ∪ seen, urls ++ [x])
        by (unfold add_unseen; by rewrite decide_False).
      rewrite decide_False by by rewrite <- Hinv.
      replace (urls ++ x :: filter (λ y, y ∉ urls ++ [x]) (first_occurrences l))
        with ((urls ++ [x]) ++ filter (λ y, y ∉ urls ++ [x]) (first_occurrences l))
        by by rewrite <- app_assoc.
      apply IH. intros y.
      rewrite elem_of_union, elem_of_singleton, elem_of_app,
        list_elem_of_singleton, Hinv. tauto.
Qed.

Lemma foldl_add_unseen_nil l :
  (foldl add_unseen (∅, []) l).2 = first_occurrences l.
Proof.
  destruct (foldl_add_unseen l ∅ []) as [-> _]; [set_solver|].
  simpl. induction (first_occurrences l) as [|y k IH]; [done|].
  rewrite filter_cons_True by set_solver. by f_equal.
Qed.

End Occ.

(** ** [extract_urls] *)

(** The URLs are the first occurrences of the trimmed matches. *)
Lemma extract_urls_first_occurrences text :
  extract_urls (Some text)
  = first_occurrences (url_of_match <$> Re.finditer text).
Proof.
  destruct text as [|c text]; [done|].
  unfold extract_urls.
  rewrite <- (foldl_fmap add_unseen (∅, []) _ url_of_match).
  apply Occ.foldl_add_unseen_nil.
Qed.

Lemma first_start_elem u ms :
  u ∈ url_of_match <$> ms →
  ∃ m, m ∈ ms ∧ first_start u ms = Some (Re.start m).
Proof.
  induction ms as [|m ms IH]; simpl; [by intros ?%elem_of_nil|].
  case_decide as Hm.
  - intros _. exists m. split; [left | done].
  - intros [?|Hin]%elem_of_cons; [congruence|].
    destruct (IH Hin) as (m' & ? & ?). exists m'. split; [by right | done].
Qed.

Lemma lookup_lt_sublist (l : list string) i j u v :
  i < j → l !! i = Some u → l !! j = Some v → [u; v] `sublist_of` l.
Proof.
  intros Hij Hi Hj. rewrite <- (take_drop_middle l i u) by done.
  apply sublist_inserts_l, sublist_skip, singleton_sublist_l.
  apply list_elem_of_lookup. exists (j - S i).
  rewrite lookup_drop. by replace (S i + (j - S i)) with j by lia.
Qed.

(** In the first occurrences of the matches of a left-to-right scan, a URL
    that comes earlier was first matched at a smaller offset. *)
Lemma first_occurrences_by_start ms :
  StronglySorted (λ a b, Re.start a < Re.start b) ms →
  ∀ u v, [u; v] `sublist_of` first_occurrences (url_of_match <$> ms) →
  ∃ a b, first_start u ms = Some a ∧ first_start v ms = Some b ∧ a < b.
Proof.
  induction 1 as [|m ms Hsorted IH Hlt]; intros u v; [by inv 1|].
  rewrite Forall_forall in Hlt.
  cbn [fmap list_fmap first_occurrences first_start].
  intros [Hsub|(l' & [= -> <-] & Hv)]%sublist_cons_r.
  - assert (u ≠ url_of_match m ∧ v ≠ url_of_match m) as [Hu Hv].
    { split; eapply (proj1 (list_elem_of_filter (λ y, y ≠ url_of_match m) _ _));
        (eapply elem_of_sublist; [|exact Hsub]); set_solver. }
    rewrite !decide_False by done. apply IH.
    etrans; [exact Hsub | apply sublist_filter].
  - rewrite decide_True by done.
    apply singleton_sublist_l, list_elem_of_filter in Hv as [Hne Hv].
    rewrite decide_False by done.
    apply Occ.elem_of_first_occurrences, first_start_elem in Hv as (m' & Hm' & ->).
    exists (Re.start m), (Re.start m'). auto.
Qed.

(** C7: [extract_urls] returns no URL twice, exactly the trimmed matches of
    the pattern, ordered by the offset at which each was first matched (the
    scan reports its matches at increasing offsets); the text
    "see http://a.com and http://a.com again" gives the one URL
    http://a.com, and the empty text and [None] give the empty list. *)
Theorem extract_urls_distinct_in_first_occurrence_order (text : string) :
  let urls := extract_urls (Some text) in
  let ms := Re.finditer text in
  NoDup urls
  ∧ (∀ u, u ∈ urls ↔ ∃ m, m ∈ ms ∧ url_of_match m = u)
  ∧ StronglySorted (λ a b, Re.start a < Re.start b) ms
  ∧ (∀ i j u v, i < j → urls !! i = Some u → urls !! j = Some v →
       ∃ a b, first_start u ms = Some a ∧ first_start v ms = Some b ∧ a < b)
  ∧ extract_urls (Some "see http://a.com and http://a.com again")
    = ["http://a.com"]
  ∧ extract_urls (Some "") = []
  ∧ extract_urls None = [].
Proof.
  cbv zeta. rewrite extract_urls_first_occurrences.
  split; [apply Occ.NoDup_first_occurrences|].
  split.
  { intros u. rewrite Occ.elem_of_first_occurrences, list_elem_of_fmap.
    split; intros (m & ? & ?); eauto. }
  split; [apply ReFacts.scan_sorted|].
  split; [|by vm_compute].
  intros i j u v Hij Hi Hj.
  apply first_occurrences_by_start; [apply ReFacts.scan_sorted|].
  by eapply lookup_lt_sublist.
Qed.

(** The order part of C7 on a text where the second URL to appear is the
    one that also appears last. *)
Lemma extract_urls_order_example :
  let text := "see http://b.com then http://a.com, and http://b.com again" in
  extract_urls (Some text) = ["http://b.com"; "http://a.com"]
  ∧ ∃ a b,
      first_start "http://b.com" (Re.finditer text) = Some a
      ∧ first_start "http://a.com" (Re.finditer text) = Some b ∧ a < b.
Proof.
  cbv zeta. split; [by vm_compute|].
  pose proof (extract_urls_distinct_in_first_occurrence_order
                "see http://b.com then http://a.com, and http://b.com again")
    as (_ & _ & _ & Horder & _).
  apply (Horder 0 1); [lia | by vm_compute | by vm_compute].
Defined.

(** ** The collector *)

Lemma collect_step_unrelated st msg :
  truthy (tool_name_of msg) = true →
  Str.contains "tavily" (Str.lower (py_str (tool_name_of msg))) = false →
  Str.contains "search" (Str.lower (py_str (tool_name_of msg))) = false →
  Str.contains "tool" (Str.lower (py_str (tool_name_of msg))) = false →
  collect_step st msg = st.
Proof. intros Ht H1 H2 H3. unfold collect_step. by rewrite Ht, H1, H2, H3. Qed.

Example collect_ex1 :
  collect_urls_from_langgraph_messages
    [ Message None None (Some (PyStr "find docs on https://ask.example/q")) "";
      Message None (Some (PyStr "tavily_search"))
        (Some (PyStr "[{url: https://a.com/1}, {url: https://b.com/2#top}]")) "";
      Message None (Some (PyStr "calculator"))
        (Some (PyStr "see https://evil.example/x")) "";
      Message None None (Some (PyStr "Sources: https://a.com/1")) "" ]
  = ["https://ask.example/q"; "https://a.com/1"; "https://b.com/2#top"].
Proof. by vm_compute. Qed.

(** C5: a message whose tool-name label is non-empty and, lower-cased,
    contains none of "tavily", "search", "tool" adds nothing to what the
    collector returns, whatever its content: the transcript with the message
    and the transcript without it give the same URLs. *)
Theorem collect_skips_unrelated_tool_label
    (before after : list message) (msg : message) :
  truthy (tool_name_of msg) = true →
  Str.contains "tavily" (Str.lower (py_str (tool_name_of msg))) = false →
  Str.contains "search" (Str.lower (py_str (tool_name_of msg))) = false →
  Str.contains "tool" (Str.lower (py_str (tool_name_of msg))) = false →
  collect_urls_from_langgraph_messages (before ++ msg :: after)
  = collect_urls_from_langgraph_messages (before ++ after).
Proof.
  intros Ht H1 H2 H3. unfold collect_urls_from_langgraph_messages.
  rewrite !foldl_app. cbn [foldl]. by rewrite collect_step_unrelated.
Qed.

Lemma collect_skips_unrelated_tool_label_witness :
  let search :=
    Message (Some (PyStr "tavily_search")) None
      (Some (PyStr "{url: https://a.com/1}")) "" in
  let calculator :=
    Message None (Some (PyStr "Calculator"))
      (Some (PyStr "see https://evil.example/x")) "" in
  collect_urls_from_langgraph_messages ([search] ++ calculator :: [])
  = collect_urls_from_langgraph_messages ([search] ++ []).
Proof.
  apply collect_skips_unrelated_tool_label; vm_compute; reflexivity.
Defined.

(** ** The grounding filter *)

Module Ground.

Lemma ground_step_cases (allowed_set : gset string) grounded u :
  ground_step allowed_set grounded u
  = if decide (Str.split_hash_0 u ∈ allowed_set)
    then if decide (Str.split_hash_0 u ∈ grounded)
         then grounded else grounded ++ [Str.split_hash_0 u]
    else grounded.
Proof. unfold ground_step. repeat case_decide; tauto. Qed.

(** The `grounded` loop computes the first occurrences of the stripped
    answer URLs that are in the allowed set. *)
Lemma foldl_ground_step (allowed_set : gset string) urls : ∀ grounded,
  foldl (ground_step allowed_set) grounded urls
  = grounded
    ++ filter (λ y, y ∉ grounded)
         (first_occurrences
            (filter (λ base, base ∈ allowed_set) (Str.split_hash_0 <$> urls))).
Proof.
  induction urls as [|u urls IH]; intros grounded.
  - simpl. by rewrite app_nil_r.
  - cbn [foldl fmap list_fmap]. rewrite IH, ground_step_cases.
    destruct (decide (Str.split_hash_0 u ∈ allowed_set)) as [Hin|Hout].
    + rewrite filter_cons_True by done. rewrite Occ.filter_fresh_cons.
      destruct (decide (Str.split_hash_0 u ∈ grounded)) as [Hg|Hg]; [done|].
      by rewrite <- app_assoc.
    + by rewrite filter_cons_False by done.
Qed.

Lemma grounded_of_kept answer_text allowed_urls :
  grounded_of answer_text allowed_urls = kept_citations answer_text allowed_urls.
Proof.
  unfold grounded_of, kept_citations. rewrite foldl_ground_step. simpl.
  rewrite (list_filter_iff (λ y, y ∉ []) (λ _, True)) by (intros y; set_solver).
  rewrite (list_filter_iff (λ base, base ∈ list_to_set _)
             (λ base, base ∈ Str.split_hash_0 <$> allowed_urls))
    by (intros y; apply elem_of_list_to_set).
  induction (first_occurrences _) as [|y k IH]; [done|].
  rewrite filter_cons_True by done. by f_equal.
Qed.

(** The function in terms of the list `grounded`. *)
Lemma enforce_cases list_of_set answer_text allowed_urls :
  allowed_urls ≠ [] →
  enforce_grounded_citations list_of_set answer_text allowed_urls
  = match kept_citations answer_text allowed_urls with
    | [] => take 3 (list_of_set (list_to_set (Str.split_hash_0 <$> allowed_urls)))
    | _ :: _ => kept_citations answer_text allowed_urls
    end.
Proof.
  intros Hne. rewrite <- grounded_of_kept.
  destruct allowed_urls as [|a l]; [done|]. reflexivity.
Qed.

Lemma elem_of_kept_citations u answer_text allowed_urls :
  u ∈ kept_citations answer_text allowed_urls →
  (∃ a, a ∈ allowed_urls ∧ u = Str.split_hash_0 a)
  ∧ (∃ c, c ∈ extract_urls (Some answer_text) ∧ u = Str.split_hash_0 c).
Proof.
  unfold kept_citations.
  rewrite Occ.elem_of_first_occurrences, list_elem_of_filter, !list_elem_of_fmap.
  intros [(a & ? & ?) (c & ? & ?)]. split; eauto.
Qed.

Lemma elem_of_fallback list_of_set u (allowed_urls : list string) :
  set_enumeration list_of_set →
  u ∈ take 3 (list_of_set (list_to_set (Str.split_hash_0 <$> allowed_urls))) →
  ∃ a, a ∈ allowed_urls ∧ u = Str.split_hash_0 a.
Proof.
  intros Henum Hu. eapply elem_of_sublist in Hu; [|apply sublist_take].
  rewrite (Henum _), elem_of_elements, elem_of_list_to_set, list_elem_of_fmap in Hu.
  destruct Hu as (a & ? & ?). eauto.
Qed.

End Ground.

(** C4: with an empty allowed list the filter returns the URLs of the
    answer as [extract_urls] gives them. *)
Theorem enforce_without_evidence_is_extract_urls
    (list_of_set : gset string → list string) (answer_text : string) :
  enforce_grounded_citations list_of_set answer_text []
  = extract_urls (Some answer_text).
Proof. reflexivity. Qed.

(** C3: for a non-empty allowed list, the list `grounded` built by the filter
    is [kept_citations]: the fragment-stripped forms of the cited URLs that
    match a fragment-stripped allowed URL, in the order of the answer, each
    once; when it is not empty it is what the filter returns.  For the
    allowed list [https://a.com/1, https://b.com/2] and the answer
    "See https://a.com/1#sec and also https://c.com/3" the result is
    [https://a.com/1]. *)
Theorem enforce_keeps_grounded_citations
    (list_of_set : gset string → list string)
    (answer_text : string) (allowed_urls : list string) :
  allowed_urls ≠ [] →
  grounded_of answer_text allowed_urls = kept_citations answer_text allowed_urls
  ∧ (kept_citations answer_text allowed_urls ≠ [] →
     enforce_grounded_citations list_of_set answer_text allowed_urls
     = kept_citations answer_text allowed_urls)
  ∧ enforce_grounded_citations list_of_set
      "See https://a.com/1#sec and also https://c.com/3"
      ["https://a.com/1"; "https://b.com/2"]
    = ["https://a.com/1"].
Proof.
  intros Hne. split; [apply Ground.grounded_of_kept|]. split.
  - intros Hkept. rewrite Ground.enforce_cases by done.
    by destruct (kept_citations answer_text allowed_urls).
  - rewrite Ground.enforce_cases by done. by vm_compute.
Qed.

Lemma enforce_keeps_grounded_citations_witness :
  let answer_text := "See https://a.com/1#sec, https://c.com/3 and https://a.com/1#end" in
  let allowed_urls := ["https://b.com/2"; "https://a.com/1#top"] in
  grounded_of answer_text allowed_urls = kept_citations answer_text allowed_urls
  ∧ (kept_citations answer_text allowed_urls ≠ [] →
     enforce_grounded_citations elements answer_text allowed_urls
     = kept_citations answer_text allowed_urls)
  ∧ enforce_grounded_citations elements
      "See https://a.com/1#sec and also https://c.com/3"
      ["https://a.com/1"; "https://b.com/2"]
    = ["https://a.com/1"].
Proof.
  apply (enforce_keeps_grounded_citations elements). vm_compute. discriminate.
Defined.

(** C9: for a non-empty allowed list no returned URL contains ['#'],
    whichever way the set is enumerated: on the grounding path and on the
    fallback path alike, what is returned is the fragment-stripped form of
    an allowed URL. *)
Theorem enforce_returns_no_fragment
    (list_of_set : gset string → list string)
    (answer_text : string) (allowed_urls : list string) (u : string) :
  set_enumeration list_of_set →
  allowed_urls ≠ [] →
  u ∈ enforce_grounded_citations list_of_set answer_text allowed_urls →
  Str.has_char "#"%char u = false
  ∧ ∃ a, a ∈ allowed_urls ∧ u = Str.split_hash_0 a.
Proof.
  intros Henum Hne. rewrite Ground.enforce_cases by done.
  assert ((∃ a, a ∈ allowed_urls ∧ u = Str.split_hash_0 a) →
          Str.has_char "#"%char u = false
          ∧ ∃ a, a ∈ allowed_urls ∧ u = Str.split_hash_0 a) as Hstripped.
  { intros (a & Ha & ->). split; [apply StrFacts.split_hash_0_no_hash | eauto]. }
  destruct (kept_citations answer_text allowed_urls) as [|k ks] eqn:Hk.
  - intros Hu%Ground.elem_of_fallback; auto.
  - rewrite <- Hk. intros [Hu _]%Ground.elem_of_kept_citations. auto.
Qed.

Lemma enforce_returns_no_fragment_witness :
  Str.has_char "#"%char "https://a.com/1" = false
  ∧ ∃ a, a ∈ ["https://a.com/1#top"; "https://b.com/2#x"]
         ∧ "https://a.com/1" = Str.split_hash_0 a.
Proof.
  apply (enforce_returns_no_fragment elements "Nothing cited.").
  - intros X. reflexivity.
  - discriminate.
  - vm_compute. left.
Defined.

(** C1, as the code has it: a returned URL is a URL extracted from the
    answer, or an allowed URL, or the fragment-stripped form of an allowed
    URL. *)
Theorem enforce_returns_evidence_up_to_fragment
    (list_of_set : gset string → list string)
    (answer_text : string) (allowed_urls : list string) (u : string) :
  set_enumeration list_of_set →
  u ∈ enforce_grounded_citations list_of_set answer_text allowed_urls →
  u ∈ extract_urls (Some answer_text)
  ∨ ∃ a, a ∈ allowed_urls ∧ (u = a ∨ u = Str.split_hash_0 a).
Proof.
  intros Henum. destruct allowed_urls as [|a0 l]; [by left|].
  rewrite Ground.enforce_cases by done.
  destruct (kept_citations answer_text (a0 :: l)) as [|k ks] eqn:Hk.
  - intros (a & ? & ->)%Ground.elem_of_fallback; [|done]. right. eauto.
  - rewrite <- Hk. intros [(a & ? & ->) _]%Ground.elem_of_kept_citations.
    right. eauto.
Qed.

Lemma enforce_returns_evidence_up_to_fragment_witness :
  ("https://a.com/1" ∈ extract_urls (Some "See https://a.com/1#sec"))
  ∨ ∃ a, a ∈ ["https://a.com/1#top"]
         ∧ ("https://a.com/1" = a ∨ "https://a.com/1" = Str.split_hash_0 a).
Proof.
  apply (enforce_returns_evidence_up_to_fragment elements).
  - intros X. reflexivity.
  - vm_compute. left.
Defined.

(** C1 as stated fails: the answer cites https://a.com/1#sec, the search
    returned https://a.com/1#top, and the filter returns https://a.com/1,
    which is in neither list. *)
Lemma enforce_returns_url_absent_from_both :
  ∃ u,
    u ∈ enforce_grounded_citations elements
          "See https://a.com/1#sec" ["https://a.com/1#top"]
    ∧ (u ∉ extract_urls (Some "See https://a.com/1#sec"))
    ∧ (u ∉ ["https://a.com/1#top"]).
Proof.
  exists "https://a.com/1". split; [vm_compute; left|].
  replace (extract_urls (Some "See https://a.com/1#sec"))
    with ["https://a.com/1#sec"] by by vm_compute.
  split; rewrite list_elem_of_singleton; discriminate.
Qed.

(** The fallback lists the set of fragment-stripped URLs: whatever the
    enumeration, an allowed URL with a fragment comes back without it. *)
Lemma enforce_fallback_strips_fragment
    (list_of_set : gset string → list string) :
  set_enumeration list_of_set →
  enforce_grounded_citations list_of_set "Nothing cited." ["https://a.com/1#top"]
  = ["https://a.com/1"].
Proof.
  intros Henum. rewrite Ground.enforce_cases by done.
  replace (kept_citations "Nothing cited." ["https://a.com/1#top"])
    with (@nil string) by by vm_compute.
  replace (list_to_set (Str.split_hash_0 <$> ["https://a.com/1#top"]) : gset string)
    with ({["https://a.com/1"]} : gset string) by by vm_compute.
  pose proof (Henum {["https://a.com/1"]}) as Hperm.
  rewrite elements_singleton in Hperm.
  by apply Permutation_singleton_r in Hperm as ->.
Qed.

(** C2 on the documentation's input: four allowed URLs and an answer that
    cites none.  The fallback lists a set, so which three URLs come back and
    in which order is left to the enumeration; under the one below the result
    is not the first three allowed URLs. *)
Theorem enforce_fallback_not_first_three :
  let allowed_urls :=
    ["https://a.com/1"; "https://b.com/2"; "https://c.com/3"; "https://d.com/4"] in
  ∃ list_of_set,
    set_enumeration list_of_set
    ∧ enforce_grounded_citations list_of_set
        "I found nothing worth citing." allowed_urls
      = ["https://d.com/4"; "https://b.com/2"; "https://a.com/1"]
    ∧ take 3 allowed_urls
      = ["https://a.com/1"; "https://b.com/2"; "https://c.com/3"].
Proof.
  exists (λ X, reverse (elements X)). split.
  - intros X. apply reverse_Permutation.
  - by vm_compute.
Qed.

(** ** Preamble injection *)

Module GraphFacts.

Import Graph.

Lemma startswith_refl p : Str.startswith p p = true.
Proof. induction p as [|c p IH]; simpl; [done | by rewrite decide_True]. Qed.

Lemma contains_refl p : Str.contains p p = true.
Proof. destruct p; simpl; [done|]. by rewrite decide_True, startswith_refl. Qed.

Lemma normalize_as_history msgs : _normalize_history (as_history msgs) = msgs.
Proof.
  unfold _normalize_history, as_history.
  induction msgs as [|[r c] msgs IH]; [done|]. rewrite !fmap_cons. by f_equal.
Qed.

(** A message list that already starts with the preamble is left alone. *)
Lemma inject_present raw preamble content rest :
  _normalize_history raw = ("system", content) :: rest →
  Str.contains preamble content = true →
  _inject_preamble raw preamble = _normalize_history raw.
Proof. intros Hn Hc. unfold _inject_preamble. by rewrite Hn, Hc. Qed.

(** After injection the first message is a system message that contains
    the preamble. *)
Lemma inject_head raw preamble :
  ∃ content rest,
    _inject_preamble raw preamble = ("system", content) :: rest
    ∧ Str.contains preamble content = true.
Proof.
  unfold _inject_preamble.
  destruct (_normalize_history raw) as [|[role content] rest] eqn:Hn.
  - eexists _, _. split; [done | apply contains_refl].
  - destruct (bool_decide (role = "system")) eqn:Hrole; simpl.
    + apply bool_decide_eq_true in Hrole as ->.
      destruct (Str.contains preamble content) eqn:Hc.
      * by eexists _, _.
      * eexists _, _. split; [done | apply contains_refl].
    + eexists _, _. split; [done | apply contains_refl].
Qed.

Lemma count_system_none msgs :
  Forall (λ m : string * string, m.1 ≠ "system") msgs → count_system msgs = 0.
Proof.
  unfold count_system. induction 1 as [|m msgs Hm _ IH]; [done|].
  by rewrite filter_cons_False.
Qed.

(** C6, as the code has it: a history whose first message is a system
    message containing the preamble is returned as normalised; a second
    call on the first call's messages, followed by whatever the run added,
    returns them unchanged; and when neither the caller's history nor the
    added messages hold a system message, that list has one system message,
    the preamble, in first place. *)
Theorem inject_preamble_idempotent
    (raw : list history_item) (preamble : string)
    (added : list (string * string)) :
  let first := _inject_preamble raw preamble in
  let second := _inject_preamble (as_history (first ++ added)) preamble in
  (∀ content rest,
     _normalize_history raw = ("system", content) :: rest →
     Str.contains preamble content = true →
     first = _normalize_history raw)
  ∧ second = first ++ added
  ∧ (Forall (λ m, m.1 ≠ "system") (_normalize_history raw ++ added) →
     second = ("system", preamble) :: _normalize_history raw ++ added
     ∧ count_system second = 1).
Proof.
  cbv zeta.
  assert (_inject_preamble
            (as_history (_inject_preamble raw preamble ++ added)) preamble
          = _inject_preamble raw preamble ++ added) as Hsecond.
  { destruct (inject_head raw preamble) as (content & rest & Hfirst & Hc).
    rewrite Hfirst. etrans; [|apply normalize_as_history].
    apply (inject_present _ _ content (rest ++ added));
      [by rewrite normalize_as_history | done]. }
  split; [intros content rest; apply inject_present|].
  split; [done|].
  intros Hfree. rewrite Hsecond.
  assert (_inject_preamble raw preamble
          = ("system", preamble) :: _normalize_history raw) as ->.
  { unfold _inject_preamble.
    destruct (_normalize_history raw) as [|[role content] rest]; [done|].
    apply Forall_cons_1 in Hfree as [Hrole _]. simpl in Hrole.
    by rewrite bool_decide_eq_false_2. }
  split; [done|].
  unfold count_system. cbn [app]. rewrite filter_cons_True by done.
  cbn [length]. f_equal. by apply count_system_none.
Qed.

Lemma inject_preamble_idempotent_witness :
  let raw := [Pair (PyStr "user") (PyStr "hi");
              Dict (Some (PyStr "assistant")) (Some (PyStr "hello"));
              Other "and now?"] in
  let added := [("tool", "https://a.com/1"); ("assistant", "See https://a.com/1")] in
  let second :=
    _inject_preamble (as_history (_inject_preamble raw "Be brief." ++ added))
      "Be brief." in
  second = ("system", "Be brief.") :: _normalize_history raw ++ added
  ∧ count_system second = 1.
Proof.
  cbv zeta. apply inject_preamble_idempotent.
  vm_compute. repeat constructor; discriminate.
Defined.

(** C6 as stated fails for a history that brings a system message of its
    own: both calls return two leading system messages. *)
Lemma second_call_keeps_two_system_messages :
  let raw := [Pair (PyStr "system") (PyStr "Answer in French.");
              Pair (PyStr "user") (PyStr "hi")] in
  let first := _inject_preamble raw "Be brief." in
  let second :=
    _inject_preamble (as_history (first ++ [("assistant", "salut")])) "Be brief." in
  second = [("system", "Be brief."); ("system", "Answer in French.");
            ("user", "hi"); ("assistant", "salut")]
  ∧ count_system second = 2.
Proof. by vm_compute. Qed.

(** ** Agent construction *)

(** C8: when, once the [.env] file is read, OPENAI_API_KEY has a value and
    TAVILY_API_KEY has none, [build_agent] raises the error whose message
    names TAVILY_API_KEY, and has called neither the model nor the search
    package. *)
Theorem build_agent_requires_search_key
    (load_dotenv : gmap string string → gmap string string)
    (positional_signature : bool)
    (environ : gmap string string) (model_name : option string)
    (key : string) :
  load_dotenv environ !! "OPENAI_API_KEY" = Some key →
  key ≠ "" →
  load_dotenv environ !! "TAVILY_API_KEY" = None →
  ∃ msg,
    build_agent load_dotenv positional_signature environ model_name
    = ([], inl (RuntimeError msg))
    ∧ msg = "Missing environment variable: TAVILY_API_KEY. Please set it in your .env or your shell session."
    ∧ Str.contains "TAVILY_API_KEY" msg = true.
Proof.
  intros Hopenai Hkey Htavily. eexists. split; [|split; [reflexivity|]].
  - unfold build_agent, _require_env. rewrite Hopenai, Htavily.
    destruct key; [done|]. reflexivity.
  - by vm_compute.
Qed.

Lemma build_agent_requires_search_key_witness :
  ∃ msg,
    build_agent (λ env, env) true {["OPENAI_API_KEY" := "sk-test"]} None
    = ([], inl (RuntimeError msg))
    ∧ msg = "Missing environment variable: TAVILY_API_KEY. Please set it in your .env or your shell session."
    ∧ Str.contains "TAVILY_API_KEY" msg = true.
Proof.
  apply (build_agent_requires_search_key (λ env, env) true
           {["OPENAI_API_KEY" := "sk-test"]} None "sk-test").
  - reflexivity.
  - discriminate.
  - reflexivity.
Defined.

End GraphFacts.

(** * Further properties *)

(** ** The pattern, in more detail *)

Module ReMore.

#[local] Arguments String.append !_ _ / : simpl nomatch.

Lemma all_app p (a b : string) :
  Str.all p (a +:+ b) = Str.all p a && Str.all p b.
Proof. induction a as [|c a IH]; simpl; [done|]. by rewrite IH, andb_assoc. Qed.

(** A character that lower-cases to a character of the scheme is neither
    white space nor [)]. *)
Lemma url_char_of_scheme_char (c : ascii) :
  Str.has_char (Char.lower c) "https:/" = true → Re.url_char c = true.
Proof. destruct c as [[] [] [] [] [] [] [] []]; vm_compute; congruence. Qed.

Lemma url_chars_of_scheme (x : string) :
  Str.all (λ l, Str.has_char l "https:/") (Str.lower x) = true →
  Str.all Re.url_char x = true.
Proof.
  induction x as [|c x IH]; simpl; [done|].
  intros [Hc Hx]%andb_true_iff. by rewrite url_char_of_scheme_char, IH.
Qed.

Lemma span_url_chars_all s : ∀ run rest,
  Re.span_url_chars s = (run, rest) →
  Str.all Re.url_char run = true
  ∧ match rest with
    | EmptyString => True
    | String c _ => Re.url_char c = false
    end.
Proof.
  induction s as [|c s IH]; intros run rest; simpl.
  - by intros [= <- <-].
  - destruct (Re.url_char c) eqn:Hc.
    + destruct (Re.span_url_chars s) as [run' rest'].
      intros [= <- <-]. simpl. rewrite Hc. by apply IH.
    + by intros [= <- <-].
Qed.

(** A run of URL characters is spanned whole. *)
Lemma span_url_chars_run run :
  Str.all Re.url_char run = true → Re.span_url_chars run = (run, "").
Proof.
  induction run as [|c run IH]; simpl; [done|].
  intros [Hc Hrun]%andb_true_iff. by rewrite Hc, IH.
Qed.

Lemma lits_ignorecase_complete m : ∀ rest,
  Re.lits_ignorecase (Str.lower m) (m +:+ rest) = Some (m, rest).
Proof.
  induction m as [|c m IH]; intros rest; simpl; [done|].
  rewrite decide_True by done. by rewrite IH.
Qed.

Lemma lits_complete m rest : Re.lits m (m +:+ rest) = Some (m, rest).
Proof.
  induction m as [|c m IH]; simpl; [done|].
  rewrite decide_True by done. by rewrite IH.
Qed.

(** The shape of a match: the four letters, the optional letter, [://] and
    a run that is not empty and is the longest possible. *)
Lemma match_here_inv s g rest :
  Re.match_here s = Some (g, rest) →
  ∃ http s1 run,
    g = http +:+ s1 +:+ "://" +:+ run
    ∧ Str.lower http = "http"
    ∧ (s1 = "" ∨ Str.lower s1 = "s")
    ∧ run ≠ ""
    ∧ Str.all Re.url_char run = true.
Proof.
  assert (∀ r tl rest',
    Re.colon_slashes_run r = Some (tl, rest') →
    ∃ run, tl = "://" +:+ run ∧ run ≠ "" ∧ Str.all Re.url_char run = true)
    as Htail.
  { intros r tl rest'. unfold Re.colon_slashes_run.
    destruct (Re.lits "://" r) as [[sep r']|] eqn:E;
      cbv beta iota delta [mbind option_bind]; [|done].
    destruct (Re.span_url_chars r') as [run rest''] eqn:Er.
    apply span_url_chars_all in Er as [Hall _].
    apply ReFacts.lits_spec in E as [-> _].
    destruct run as [|c run]; [done|]. intros [= <- <-]. by eexists. }
  unfold Re.match_here.
  destruct (Re.lits_ignorecase "http" s) as [[http r1]|] eqn:E1;
    cbv beta iota delta [mbind option_bind]; [|done].
  apply ReFacts.lits_ignorecase_spec in E1 as [_ Hh].
  destruct (Re.lits_ignorecase "s" r1) as [[s1 r2]|] eqn:E2.
  - apply ReFacts.lits_ignorecase_spec in E2 as [_ Hs].
    destruct (Re.colon_slashes_run r2) as [[tl rest']|] eqn:E3.
    + intros [= <- <-]. apply Htail in E3 as (run & -> & ? & ?).
      exists http, s1, run. auto.
    + destruct (Re.colon_slashes_run r1) as [[tl rest']|] eqn:E4; [|done].
      intros [= <- <-]. apply Htail in E4 as (run & -> & ? & ?).
      exists http, "", run. auto.
  - destruct (Re.colon_slashes_run r1) as [[tl rest']|] eqn:E4; [|done].
    intros [= <- <-]. apply Htail in E4 as (run & -> & ? & ?).
    exists http, "", run. auto.
Qed.

(** The last character [rstrip] leaves is not one of [chars]. *)
Lemma rstrip_last chars s : ∀ p c,
  Str.rstrip chars s = p +:+ String c "" → Str.has_char c chars = false.
Proof.
  induction s as [|d s IH]; intros p c; simpl.
  - by destruct p.
  - destruct (Str.rstrip chars s) as [|e r] eqn:Hr.
    + destruct (Str.has_char d chars) eqn:Hd; [by destruct p|].
      destruct p as [|x p]; simpl; [by intros [= <-]|].
      intros [= _ Hp]. by destruct p.
    + destruct p as [|x p]; simpl.
      * by intros [= _ ?].
      * intros [= <- Hp]. by eapply IH.
Qed.

End ReMore.

(** ** More on [extract_urls] *)

Module ExtractMore.

#[local] Arguments String.append !_ _ / : simpl nomatch.

Lemma all_has_char p s c :
  Str.all p s = true → Str.has_char c s = true → p c = true.
Proof.
  induction s as [|d s IH]; simpl; [done|].
  intros [Hd Hs]%andb_true_iff. case_decide as Hc; [by subst | auto].
Qed.

(** What [extract_urls] returns for a text, match by match. *)
Lemma elem_of_extract_urls text u :
  u ∈ extract_urls (Some text) →
  ∃ http s1 run,
    u = http +:+ s1 +:+ "://" +:+ Str.rstrip TRAILING run
    ∧ Str.lower http = "http"
    ∧ (s1 = "" ∨ Str.lower s1 = "s")
    ∧ Str.all Re.url_char run = true.
Proof.
  rewrite extract_urls_first_occurrences, Occ.elem_of_first_occurrences.
  intros (m & -> & Hm)%list_elem_of_fmap.
  apply ReFacts.scan_occurs in Hm as (pre & post & _ & _ & Hm).
  apply ReMore.match_here_inv in Hm as (http & s1 & run & Hg & Hh & Hs & _ & Hrun).
  exists http, s1, run. split; [|done].
  unfold url_of_match. rewrite Hg.
  rewrite <- !StrFacts.app_assoc.
  rewrite (StrFacts.rstrip_app_kept TRAILING ((http +:+ s1) +:+ "://")).
  - done.
  - change "://" with (":/" +:+ "/"). rewrite <- !StrFacts.app_assoc.
    by apply StrFacts.rstrip_snoc_kept.
Qed.

Lemma rstrip_url_chars chars run :
  Str.all Re.url_char run = true →
  Str.all Re.url_char (Str.rstrip chars run) = true.
Proof.
  destruct (StrFacts.rstrip_split chars run) as (tail & Hsplit & _).
  intros Hall. rewrite Hsplit, ReMore.all_app in Hall.
  by apply andb_true_iff in Hall as [? _].
Qed.

End ExtractMore.

(** X1: a URL returned by [extract_urls] contains no white space and no
    closing parenthesis. *)
Theorem extract_urls_no_space_no_paren (text u : string) (c : ascii) :
  u ∈ extract_urls (Some text) →
  Str.has_char c u = true →
  Char.isspace c = false ∧ c ≠ ")"%char.
Proof.
  intros (http & s1 & run & -> & Hh & Hs & Hrun)%ExtractMore.elem_of_extract_urls Hc.
  assert (Re.url_char c = true) as Hurl.
  { eapply ExtractMore.all_has_char; [|exact Hc].
    rewrite !ReMore.all_app, ExtractMore.rstrip_url_chars by done.
    rewrite (ReMore.url_chars_of_scheme http) by by rewrite Hh.
    destruct Hs as [-> | Hs]; [done|].
    by rewrite (ReMore.url_chars_of_scheme s1) by by rewrite Hs. }
  unfold Re.url_char in Hurl. apply andb_true_iff in Hurl as [Hsp Hpar].
  split; [by destruct (Char.isspace c)|].
  intros ->. by vm_compute in Hpar.
Qed.

Lemma extract_urls_no_space_no_paren_witness :
  Char.isspace "/"%char = false ∧ "/"%char ≠ ")"%char.
Proof.
  apply (extract_urls_no_space_no_paren "(see https://a.com/b c)" "https://a.com/b").
  - vm_compute. left.
  - reflexivity.
Defined.

(** X2: a URL returned by [extract_urls] does not end with one of the
    characters ".,);]}". *)
Theorem extract_urls_no_trailing_punctuation (text u p : string) (c : ascii) :
  u ∈ extract_urls (Some text) →
  u = p +:+ String c "" →
  Str.has_char c TRAILING = false.
Proof.
  rewrite extract_urls_first_occurrences, Occ.elem_of_first_occurrences.
  intros (m & -> & _)%list_elem_of_fmap. apply ReMore.rstrip_last.
Qed.

Lemma extract_urls_no_trailing_punctuation_witness :
  Str.has_char "e"%char TRAILING = false.
Proof.
  apply (extract_urls_no_trailing_punctuation
           "Visit [https://x.com/page.]." "https://x.com/page" "https://x.com/pag").
  - vm_compute. left.
  - reflexivity.
Defined.

(** ** More on the collector *)

Module CollectMore.

Lemma collect_step_harvest st msg :
  collect_step st msg = foldl add_unseen st (urls_of_message msg).
Proof.
  unfold collect_step, urls_of_message, scanned, harvest.
  destruct (truthy (tool_name_of msg)).
  - by destruct (_ || _).
  - by destruct (Str.contains _ _).
Qed.

Lemma foldl_collect_step msgs : ∀ st,
  foldl collect_step st msgs
  = foldl add_unseen st (concat (urls_of_message <$> msgs)).
Proof.
  induction msgs as [|msg msgs IH]; intros st; [done|].
  cbn [foldl fmap list_fmap concat]. by rewrite foldl_app, IH, collect_step_harvest.
Qed.

(** The collector returns the first occurrences of the URLs of the scanned
    messages, taken in transcript order. *)
Lemma collect_first_occurrences msgs :
  collect_urls_from_langgraph_messages msgs
  = first_occurrences (concat (urls_of_message <$> msgs)).
Proof.
  unfold collect_urls_from_langgraph_messages.
  by rewrite foldl_collect_step, Occ.foldl_add_unseen_nil.
Qed.

Lemma first_occurrences_app (l1 l2 : list string) :
  first_occurrences (l1 ++ l2)
  = first_occurrences l1 ++ filter (λ y, y ∉ l1) (first_occurrences l2).
Proof.
  rewrite <- (Occ.foldl_add_unseen_nil (l1 ++ l2)), foldl_app.
  pose proof (Occ.foldl_add_unseen_nil l1) as Hurls.
  destruct (Occ.foldl_add_unseen l1 ∅ []) as [_ Hinv]; [set_solver|].
  destruct (foldl add_unseen (∅, []) l1) as [seen urls]. cbn [fst snd] in *.
  destruct (Occ.foldl_add_unseen l2 seen urls Hinv) as [-> _].
  rewrite Hurls. f_equal. apply list_filter_iff. intros y.
  by rewrite Occ.elem_of_first_occurrences.
Qed.

Lemma elem_of_collect (messages : list message) (u : string) :
  u ∈ collect_urls_from_langgraph_messages messages
  ↔ ∃ msg, msg ∈ messages ∧ scanned msg = true
           ∧ u ∈ extract_urls (Some (py_str (content_of msg))).
Proof.
  rewrite collect_first_occurrences, Occ.elem_of_first_occurrences.
  rewrite list_elem_of_In, in_concat. split.
  - intros (l & Hl & Hu). apply list_elem_of_In in Hl, Hu.
    apply list_elem_of_fmap in Hl as (msg & -> & Hmsg).
    exists msg. unfold urls_of_message in Hu.
    destruct (scanned msg); [done | by apply elem_of_nil in Hu].
  - intros (msg & Hmsg & Hscan & Hu). exists (urls_of_message msg).
    split; apply list_elem_of_In.
    + by apply list_elem_of_fmap_2.
    + unfold urls_of_message. by rewrite Hscan.
Qed.

End CollectMore.

(** X4: the collector returns no URL twice, whatever the transcript. *)
Theorem collect_no_duplicates (messages : list message) :
  NoDup (collect_urls_from_langgraph_messages messages).
Proof.
  rewrite CollectMore.collect_first_occurrences.
  apply Occ.NoDup_first_occurrences.
Qed.

(** X5: the collector returns exactly the URLs that [extract_urls] finds in
    the content of the messages it scans: those whose tool-name label
    contains tavily, search or tool, and those without a label whose content
    contains http. *)
Theorem collect_exactly_scanned_urls (messages : list message) (u : string) :
  u ∈ collect_urls_from_langgraph_messages messages
  ↔ ∃ msg, msg ∈ messages ∧ scanned msg = true
           ∧ u ∈ extract_urls (Some (py_str (content_of msg))).
Proof. apply CollectMore.elem_of_collect. Qed.

(** X6: the collected URLs only grow with the transcript: what was
    collected from the messages so far stays, in place, when messages are
    appended. *)
Theorem collect_prefix_monotone (messages more : list message) :
  collect_urls_from_langgraph_messages messages
  `prefix_of` collect_urls_from_langgraph_messages (messages ++ more).
Proof.
  rewrite !CollectMore.collect_first_occurrences, fmap_app, concat_app.
  rewrite CollectMore.first_occurrences_app. by eexists.
Qed.

(** ** More on the grounding filter *)

Module GroundMore.

Lemma NoDup_extract_urls text : NoDup (extract_urls (Some text)).
Proof.
  rewrite extract_urls_first_occurrences. apply Occ.NoDup_first_occurrences.
Qed.

Lemma NoDup_kept_citations answer_text allowed_urls :
  NoDup (kept_citations answer_text allowed_urls).
Proof. apply Occ.NoDup_first_occurrences. Qed.

(** An enumeration of the stripped allowed URLs lists each distinct one
    once. *)
Lemma enumeration_first_occurrences list_of_set (l : list string) :
  set_enumeration list_of_set →
  list_of_set (list_to_set l) ≡ₚ first_occurrences l.
Proof.
  intros Henum. rewrite (Henum _). apply NoDup_Permutation.
  - apply NoDup_elements.
  - apply Occ.NoDup_first_occurrences.
  - intros x.
    by rewrite elem_of_elements, elem_of_list_to_set, Occ.elem_of_first_occurrences.
Qed.

Lemma split_hash_0_id s :
  Str.has_char "#"%char s = false → Str.split_hash_0 s = s.
Proof.
  induction s as [|c s IH]; simpl; [done|].
  destruct (decide ("#"%char = c)) as [<-|Hc]; [done|].
  rewrite decide_False by congruence. intros Hs. by rewrite IH.
Qed.

Lemma kept_citations_ext answer_text (allowed1 allowed2 : list string) :
  (∀ x, x ∈ Str.split_hash_0 <$> allowed1 ↔ x ∈ Str.split_hash_0 <$> allowed2) →
  kept_citations answer_text allowed1 = kept_citations answer_text allowed2.
Proof.
  intros Hsame. unfold kept_citations. f_equal. by apply list_filter_iff.
Qed.

End GroundMore.

(** X7: the filter returns no URL twice. *)
Theorem enforce_no_duplicates
    (list_of_set : gset string → list string)
    (answer_text : string) (allowed_urls : list string) :
  set_enumeration list_of_set →
  NoDup (enforce_grounded_citations list_of_set answer_text allowed_urls).
Proof.
  intros Henum. destruct allowed_urls as [|a l]; [apply GroundMore.NoDup_extract_urls|].
  rewrite Ground.enforce_cases by done.
  destruct (kept_citations answer_text (a :: l)) as [|k ks] eqn:Hk.
  - eapply sublist_NoDup; [|apply sublist_take].
    rewrite (Henum _). apply NoDup_elements.
  - rewrite <- Hk. apply GroundMore.NoDup_kept_citations.
Qed.

Lemma enforce_no_duplicates_witness :
  NoDup (enforce_grounded_citations elements
           "See https://a.com/1#x and https://a.com/1#y"
           ["https://a.com/1"; "https://b.com/2"]).
Proof. apply enforce_no_duplicates. intros X. reflexivity. Defined.

(** X8: when the allowed list is not empty the filter returns at least one
    URL, whether or not the answer cites anything. *)
Theorem enforce_nonempty_with_evidence
    (list_of_set : gset string → list string)
    (answer_text : string) (allowed_urls : list string) :
  set_enumeration list_of_set →
  allowed_urls ≠ [] →
  enforce_grounded_citations list_of_set answer_text allowed_urls ≠ [].
Proof.
  intros Henum Hne. rewrite Ground.enforce_cases by done.
  destruct (kept_citations answer_text allowed_urls) as [|k ks]; [|done].
  pose proof (GroundMore.enumeration_first_occurrences list_of_set
                (Str.split_hash_0 <$> allowed_urls) Henum) as Hperm.
  destruct allowed_urls as [|a l]; [done|].
  destruct (list_of_set _) as [|x xs]; [|done].
  by apply Permutation_nil_l in Hperm.
Qed.

Lemma enforce_nonempty_with_evidence_witness :
  enforce_grounded_citations elements "I could not find anything."
    ["https://a.com/1#top"] ≠ [].
Proof.
  apply enforce_nonempty_with_evidence; [intros X; reflexivity | discriminate].
Defined.

(** X9: when no cited URL is grounded, the filter returns as many URLs as
    there are distinct fragment-stripped allowed URLs, but no more than
    three. *)
Theorem enforce_fallback_length
    (list_of_set : gset string → list string)
    (answer_text : string) (allowed_urls : list string) :
  set_enumeration list_of_set →
  allowed_urls ≠ [] →
  kept_citations answer_text allowed_urls = [] →
  length (enforce_grounded_citations list_of_set answer_text allowed_urls)
  = 3 `min` length (first_occurrences (Str.split_hash_0 <$> allowed_urls)).
Proof.
  intros Henum Hne Hkept. rewrite Ground.enforce_cases, Hkept by done.
  rewrite length_take.
  by rewrite (GroundMore.enumeration_first_occurrences _ _ Henum).
Qed.

Lemma enforce_fallback_length_witness :
  length (enforce_grounded_citations elements "See https://z.org/q."
            ["https://a.com/1#top"; "https://a.com/1#end"; "https://b.com/2"])
  = 3 `min` length (first_occurrences
                      (Str.split_hash_0 <$>
                       ["https://a.com/1#top"; "https://a.com/1#end"; "https://b.com/2"])).
Proof.
  apply enforce_fallback_length;
    [intros X; reflexivity | discriminate | by vm_compute].
Defined.

(** X10: when no allowed URL has a fragment, every URL the filter returns
    is a URL extracted from the answer or one of the allowed URLs, as
    written. *)
Theorem enforce_returns_evidence_without_fragments
    (list_of_set : gset string → list string)
    (answer_text : string) (allowed_urls : list string) (u : string) :
  set_enumeration list_of_set →
  Forall (λ a, Str.has_char "#"%char a = false) allowed_urls →
  u ∈ enforce_grounded_citations list_of_set answer_text allowed_urls →
  u ∈ extract_urls (Some answer_text) ∨ u ∈ allowed_urls.
Proof.
  intros Henum Hfrag. rewrite Forall_forall in Hfrag.
  destruct allowed_urls as [|a0 l]; [by left|].
  rewrite Ground.enforce_cases by done.
  assert ((∃ a, a ∈ a0 :: l ∧ u = Str.split_hash_0 a) → u ∈ a0 :: l) as Hin.
  { intros (a & Ha & ->). by rewrite GroundMore.split_hash_0_id by auto. }
  destruct (kept_citations answer_text (a0 :: l)) as [|k ks] eqn:Hk.
  - intros Hu%Ground.elem_of_fallback; auto.
  - rewrite <- Hk. intros [Hu _]%Ground.elem_of_kept_citations. auto.
Qed.

Lemma enforce_returns_evidence_without_fragments_witness :
  ("https://a.com/1" ∈ extract_urls (Some "See https://a.com/1#sec."))
  ∨ "https://a.com/1" ∈ ["https://b.com/2"; "https://a.com/1"].
Proof.
  apply (enforce_returns_evidence_without_fragments elements).
  - intros X. reflexivity.
  - repeat constructor.
  - vm_compute. left.
Defined.

(** X11: when some cited URL is grounded, the result depends on the allowed
    list only through the set of its fragment-stripped URLs: order,
    repetitions and fragments of the allowed URLs do not matter. *)
Theorem enforce_grounded_ignores_allowed_order
    (list_of_set : gset string → list string)
    (answer_text : string) (allowed1 allowed2 : list string) :
  (∀ x, x ∈ Str.split_hash_0 <$> allowed1 ↔ x ∈ Str.split_hash_0 <$> allowed2) →
  kept_citations answer_text allowed1 ≠ [] →
  enforce_grounded_citations list_of_set answer_text allowed1
  = enforce_grounded_citations list_of_set answer_text allowed2.
Proof.
  intros Hsame Hkept.
  pose proof (GroundMore.kept_citations_ext answer_text _ _ Hsame) as Heq.
  assert (allowed1 ≠ []) as Hne1.
  { intros ->. destruct (kept_citations answer_text []) as [|k ks] eqn:Hk; [done|].
    assert (k ∈ kept_citations answer_text []) as Hin by (rewrite Hk; left).
    apply Ground.elem_of_kept_citations in Hin as [(a & Ha & _) _].
    by apply elem_of_nil in Ha. }
  assert (allowed2 ≠ []) as Hne2.
  { intros ->. destruct allowed1 as [|a l]; [done|].
    assert (Str.split_hash_0 a ∈ Str.split_hash_0 <$> []) as Hbad
      by (apply Hsame; rewrite fmap_cons; left).
    by apply elem_of_nil in Hbad. }
  rewrite !Ground.enforce_cases by done. rewrite <- Heq.
  by destruct (kept_citations answer_text allowed1).
Qed.

Lemma enforce_grounded_ignores_allowed_order_witness :
  enforce_grounded_citations elements "See https://a.com/1#sec."
    ["https://a.com/1"; "https://b.com/2"]
  = enforce_grounded_citations elements "See https://a.com/1#sec."
      ["https://b.com/2#x"; "https://a.com/1#y"; "https://b.com/2"].
Proof.
  apply enforce_grounded_ignores_allowed_order.
  - intros x.
    replace (Str.split_hash_0 <$> ["https://a.com/1"; "https://b.com/2"])
      with ["https://a.com/1"; "https://b.com/2"] by by vm_compute.
    replace (Str.split_hash_0 <$>
             ["https://b.com/2#x"; "https://a.com/1#y"; "https://b.com/2"])
      with ["https://b.com/2"; "https://a.com/1"; "https://b.com/2"]
      by by vm_compute.
    rewrite !elem_of_cons, !elem_of_nil. tauto.
  - by vm_compute.
Defined.

(** ** [render_sources] *)

Module RenderMore.

#[local] Arguments String.append !_ _ / : simpl nomatch.

Lemma split_char_absent c s :
  Str.has_char c s = false → Py.split_char c s = [s].
Proof.
  induction s as [|d s IH]; simpl; [done|].
  destruct (decide (c = d)) as [->|Hcd]; [done|].
  rewrite decide_False by congruence. intros Hs. by rewrite IH.
Qed.

Lemma split_char_app c x rest :
  Str.has_char c x = false →
  Py.split_char c (x +:+ String c rest) = x :: Py.split_char c rest.
Proof.
  induction x as [|d x IH]; simpl.
  - intros _. by rewrite decide_True.
  - destruct (decide (c = d)) as [->|Hcd]; [done|].
    rewrite decide_False by congruence. intros Hx. by rewrite IH.
Qed.

Lemma split_join c (parts : list string) :
  parts ≠ [] →
  Forall (λ x, Str.has_char c x = false) parts →
  Py.split_char c (Py.join (String c "") parts) = parts.
Proof.
  intros Hne Hall. induction Hall as [|x parts Hx Hall IH]; [done|].
  destruct parts as [|y parts].
  - simpl. by apply split_char_absent.
  - change (Py.join (String c "") (x :: y :: parts))
      with (x +:+ String c (Py.join (String c "") (y :: parts))).
    rewrite split_char_app by done. f_equal. by apply IH.
Qed.

End RenderMore.

(** X12: [render_sources] puts each link on a line of its own, behind a
    dash, in the order given: splitting the text at line feeds gives the
    links back, as long as no link contains a line feed.  Without links the
    text is "_No sources._". *)
Theorem render_sources_one_line_per_link (links : list string) :
  Forall (λ u, Str.has_char LF u = false) links →
  match links with
  | [] => render_sources links = "_No sources._"
  | _ :: _ =>
      Py.split_char LF (render_sources links) = (λ u, "- " +:+ u) <$> links
  end.
Proof.
  intros Hall. destruct links as [|u links]; [done|].
  unfold render_sources. apply RenderMore.split_join; [done|].
  apply Forall_fmap. eapply Forall_impl; [exact Hall|].
  intros x Hx. unfold compose.
  change ("- " +:+ x) with (String "-"%char (String " "%char x)).
  cbn [Str.has_char]. by rewrite !decide_False by by vm_compute.
Qed.

Lemma render_sources_one_line_per_link_witness :
  Py.split_char LF (render_sources ["https://a.com/1"; "https://b.com/2#top"])
  = (λ u, "- " +:+ u) <$> ["https://a.com/1"; "https://b.com/2#top"].
Proof.
  apply (render_sources_one_line_per_link ["https://a.com/1"; "https://b.com/2#top"]).
  repeat constructor.
Defined.

(** ** More on histories and preambles *)

Module HistoryMore.

Import Graph.

#[local] Arguments String.append !_ _ / : simpl nomatch.

Lemma contains_app_r needle a b :
  Str.contains needle b = true → Str.contains needle (a +:+ b) = true.
Proof.
  intros Hb. induction a as [|c a IH]; simpl; [done|].
  rewrite IH. apply orb_true_r.
Qed.

Lemma contains_prefix needle b :
  Str.contains needle (needle +:+ b) = true.
Proof.
  assert (Str.startswith needle (needle +:+ b) = true) as Hs
    by apply StrFacts.startswith_app.
  destruct (needle +:+ b); simpl in *; by rewrite Hs.
Qed.

Lemma startswith_length p s :
  Str.startswith p s = true → String.length p ≤ String.length s.
Proof.
  revert s. induction p as [|a p IH]; intros [|b s]; simpl; try done; [lia|].
  case_decide; [|done]. intros ?%IH. lia.
Qed.

(** A text is not contained in a shorter one. *)
Lemma contains_length needle hay :
  Str.contains needle hay = true → String.length needle ≤ String.length hay.
Proof.
  induction hay as [|c hay IH]; simpl.
  - rewrite orb_false_r. apply startswith_length.
  - intros [Hs | Hc]%orb_true_iff.
    + by apply startswith_length in Hs.
    + apply IH in Hc. lia.
Qed.

Lemma length_append (a b : string) :
  String.length (a +:+ b) = String.length a + String.length b.
Proof. induction a as [|x a IH]; simpl; [done | by rewrite IH]. Qed.

End HistoryMore.

(** X13: whatever the history, [_inject_preamble] returns a list that
    starts with a system message containing the preamble, keeps the
    normalised history as its tail, and is at most one message longer. *)
Theorem inject_preamble_leads_with_system
    (raw : list Graph.history_item) (preamble : string) :
  ∃ content rest,
    Graph._inject_preamble raw preamble = ("system", content) :: rest
    ∧ Str.contains preamble content = true
    ∧ Graph._normalize_history raw `suffix_of` Graph._inject_preamble raw preamble
    ∧ length (Graph._inject_preamble raw preamble) ≤ S (length raw).
Proof.
  destruct (GraphFacts.inject_head raw preamble) as (content & rest & Hhead & Hc).
  exists content, rest. split; [done|]. split; [done|].
  assert (length (Graph._normalize_history raw) = length raw) as Hlen
    by apply length_fmap.
  unfold Graph._inject_preamble.
  destruct (Graph._normalize_history raw) as [|[role c] h] eqn:Hn.
  - split; [by apply suffix_cons_r | simpl in *; lia].
  - destruct (_ && _).
    + split; [done | simpl in *; lia].
    + split; [by apply suffix_cons_r | simpl in *; lia].
Qed.

(** X14: normalising a history keeps its length and order, and a
    normalised history handed back as a list of tuples normalises to
    itself. *)
Theorem normalize_history_stable (raw : list Graph.history_item) :
  length (Graph._normalize_history raw) = length raw
  ∧ Graph._normalize_history (Graph.as_history (Graph._normalize_history raw))
    = Graph._normalize_history raw
  ∧ ∀ before after,
      Graph._normalize_history (before ++ after)
      = Graph._normalize_history before ++ Graph._normalize_history after.
Proof.
  split; [apply length_fmap|].
  split; [apply GraphFacts.normalize_as_history|].
  intros before after. apply fmap_app.
Qed.

(** X15: once a mode's preamble leads the history, a call with the default
    preamble injects nothing: the default text is contained in every
    preamble [make_preamble] builds. *)
Theorem default_preamble_not_injected_after_mode
    (PREAMBLE : string) (answer_mode : string)
    (raw : list Graph.history_item) (rest : list (string * string)) :
  Graph._normalize_history raw
  = ("system", Agent.make_preamble PREAMBLE answer_mode) :: rest →
  Graph._inject_preamble raw (Agent.effective_preamble PREAMBLE None)
  = Graph._normalize_history raw.
Proof.
  intros Hn. eapply GraphFacts.inject_present; [exact Hn|].
  apply HistoryMore.contains_prefix.
Qed.

Lemma default_preamble_not_injected_after_mode_witness :
  Graph._inject_preamble
    [Graph.Dict (Some (PyStr "system"))
       (Some (PyStr (Agent.make_preamble "Be helpful." "links")));
     Graph.Pair (PyStr "user") (PyStr "hi")]
    (Agent.effective_preamble "Be helpful." None)
  = Graph._normalize_history
      [Graph.Dict (Some (PyStr "system"))
         (Some (PyStr (Agent.make_preamble "Be helpful." "links")));
       Graph.Pair (PyStr "user") (PyStr "hi")].
Proof.
  apply (default_preamble_not_injected_after_mode "Be helpful." "links" _
           [("user", "hi")]).
  reflexivity.
Defined.

(** X16: a history led by the preamble of one mode gets a second system
    message in front when the next call asks for a mode with a longer hint:
    facts and then summary or links, or summary and then links. *)
Theorem longer_mode_preamble_is_stacked
    (PREAMBLE : string) (mode1 mode2 : string)
    (raw : list Graph.history_item) (rest : list (string * string)) :
  (mode1, mode2) ∈ [("facts", "summary"); ("facts", "links"); ("summary", "links")] →
  Graph._normalize_history raw
  = ("system", Agent.make_preamble PREAMBLE mode1) :: rest →
  Graph._inject_preamble raw (Agent.make_preamble PREAMBLE mode2)
  = ("system", Agent.make_preamble PREAMBLE mode2)
    :: ("system", Agent.make_preamble PREAMBLE mode1) :: rest.
Proof.
  intros Hmodes Hn. unfold Graph._inject_preamble. rewrite Hn.
  destruct (Str.contains _ _) eqn:Hc; [|done].
  apply HistoryMore.contains_length in Hc.
  unfold Agent.make_preamble in Hc. rewrite !HistoryMore.length_append in Hc.
  rewrite !elem_of_cons, elem_of_nil in Hmodes.
  destruct Hmodes as [[= -> ->] | [[= -> ->] | [[= -> ->] | []]]];
    repeat match type of Hc with
      | context [String.length (default ?d (Agent.MODE_HINTS !! ?k))] =>
          let n := eval vm_compute in
            (String.length (default d (Agent.MODE_HINTS !! k))) in
          change (String.length (default d (Agent.MODE_HINTS !! k))) with n in Hc
      end;
    cbn [String.length] in Hc; lia.
Qed.

Lemma longer_mode_preamble_is_stacked_witness :
  Graph._inject_preamble
    [Graph.Pair (PyStr "system") (PyStr (Agent.make_preamble "Be helpful." "facts"));
     Graph.Pair (PyStr "user") (PyStr "hi")]
    (Agent.make_preamble "Be helpful." "links")
  = [("system", Agent.make_preamble "Be helpful." "links");
     ("system", Agent.make_preamble "Be helpful." "facts");
     ("user", "hi")].
Proof.
  apply (longer_mode_preamble_is_stacked "Be helpful." "facts" "links").
  - right. left.
  - reflexivity.
Defined.

(** ** More on agent construction *)

Module BuildMore.

Import Graph.

Lemma require_env_cases env var_name :
  _require_env env var_name
  = match env !! var_name with
    | Some (String c v) => ([], inr (String c v))
    | _ => ([], inl (RuntimeError
                       ("Missing environment variable: " +:+ var_name +:+ ". "
                        +:+ "Please set it in your .env or your shell session.")))
    end.
Proof. unfold _require_env. by destruct (env !! var_name) as [[|c v]|]. Qed.

(** What [build_agent] does once both keys are there. *)
Lemma build_agent_with_keys load_dotenv positional_signature environ model_name
    k1 k2 :
  load_dotenv environ !! "OPENAI_API_KEY" = Some k1 → k1 ≠ "" →
  load_dotenv environ !! "TAVILY_API_KEY" = Some k2 → k2 ≠ "" →
  ∃ model,
    build_agent load_dotenv positional_signature environ model_name
    = ([ChatOpenAI model 0; TavilySearch 5; create_react_agent_positional]
       ++ (if positional_signature then [] else [create_react_agent_keywords]),
       inr (Agent model 5))
    ∧ model = match model_name with
              | Some (String _ _ as m) => m
              | _ => match load_dotenv environ !! "OPENAI_MODEL" with
                     | Some (String _ _ as m) => m
                     | _ => "gpt-4o-mini"
                     end
              end.
Proof.
  intros H1 Hk1 H2 Hk2. eexists. split; [|reflexivity].
  unfold build_agent. rewrite !require_env_cases, H1, H2.
  destruct k1; [done|]. destruct k2; [done|].
  by destruct positional_signature.
Qed.

End BuildMore.

(** X17: for any variable name, [_require_env] returns the value when the
    variable has a non-empty one, and otherwise (unset or empty) raises a
    RuntimeError whose message contains the name; it calls nothing. *)
Theorem require_env_value_or_named_error
    (env : gmap string string) (var_name : string) :
  match env !! var_name with
  | Some (String c v) => Graph._require_env env var_name = ([], inr (String c v))
  | _ =>
      ∃ msg, Graph._require_env env var_name = ([], inl (Graph.RuntimeError msg))
             ∧ Str.contains var_name msg = true
  end.
Proof.
  rewrite BuildMore.require_env_cases.
  assert (Str.contains var_name
            ("Missing environment variable: " +:+ var_name +:+ ". "
             +:+ "Please set it in your .env or your shell session.") = true)
    as Hname by apply HistoryMore.contains_app_r, HistoryMore.contains_prefix.
  destruct (env !! var_name) as [[|c v]|]; eauto.
Qed.

(** X18: [build_agent] returns an agent exactly when, once the [.env] file
    is read, OPENAI_API_KEY and TAVILY_API_KEY both have a non-empty value;
    otherwise it raises. *)
Theorem build_agent_succeeds_iff_both_keys
    (load_dotenv : gmap string string → gmap string string)
    (positional_signature : bool)
    (environ : gmap string string) (model_name : option string) :
  (∃ log agent,
     Graph.build_agent load_dotenv positional_signature environ model_name
     = (log, inr agent))
  ↔ (∃ k1 k2,
       load_dotenv environ !! "OPENAI_API_KEY" = Some k1 ∧ k1 ≠ ""
       ∧ load_dotenv environ !! "TAVILY_API_KEY" = Some k2 ∧ k2 ≠ "").
Proof.
  split.
  - intros (log & agent & Hrun). unfold Graph.build_agent in Hrun.
    rewrite !BuildMore.require_env_cases in Hrun.
    destruct (load_dotenv environ !! "OPENAI_API_KEY") as [[|c1 k1]|]; try done.
    destruct (load_dotenv environ !! "TAVILY_API_KEY") as [[|c2 k2]|]; try done.
    by exists (String c1 k1), (String c2 k2).
  - intros (k1 & k2 & H1 & Hk1 & H2 & Hk2).
    destruct (BuildMore.build_agent_with_keys load_dotenv positional_signature
                environ model_name k1 k2) as (model & -> & _); eauto.
Qed.

(** X19: OPENAI_API_KEY is checked first: when it is unset or empty the
    error names it, whatever TAVILY_API_KEY is, and nothing was called. *)
Theorem build_agent_requires_model_key_first
    (load_dotenv : gmap string string → gmap string string)
    (positional_signature : bool)
    (environ : gmap string string) (model_name : option string) :
  load_dotenv environ !! "OPENAI_API_KEY" = None
  ∨ load_dotenv environ !! "OPENAI_API_KEY" = Some "" →
  ∃ msg,
    Graph.build_agent load_dotenv positional_signature environ model_name
    = ([], inl (Graph.RuntimeError msg))
    ∧ Str.contains "OPENAI_API_KEY" msg = true
    ∧ Str.contains "TAVILY_API_KEY" msg = false.
Proof.
  intros Hkey.
  exists "Missing environment variable: OPENAI_API_KEY. Please set it in your .env or your shell session.".
  split; [|by vm_compute].
  unfold Graph.build_agent. rewrite !BuildMore.require_env_cases.
  by destruct Hkey as [-> | ->].
Qed.

Lemma build_agent_requires_model_key_first_witness :
  ∃ msg,
    Graph.build_agent (λ env, env) true
      {["OPENAI_API_KEY" := ""; "TAVILY_API_KEY" := "tvly-test"]} (Some "gpt-4o")
    = ([], inl (Graph.RuntimeError msg))
    ∧ Str.contains "OPENAI_API_KEY" msg = true
    ∧ Str.contains "TAVILY_API_KEY" msg = false.
Proof.
  apply (build_agent_requires_model_key_first (λ env, env)).
  right. reflexivity.
Defined.

(** X20: with both keys, [build_agent] calls ChatOpenAI once, at
    temperature 0, then TavilySearch with 5 results, then
    create_react_agent positionally and, only if that raises TypeError, by
    keywords.  The model is the argument when it is a non-empty name, else
    OPENAI_MODEL when that is non-empty, else gpt-4o-mini. *)
Theorem build_agent_calls_and_model
    (load_dotenv : gmap string string → gmap string string)
    (positional_signature : bool)
    (environ : gmap string string) (model_name : option string)
    (k1 k2 : string) :
  load_dotenv environ !! "OPENAI_API_KEY" = Some k1 → k1 ≠ "" →
  load_dotenv environ !! "TAVILY_API_KEY" = Some k2 → k2 ≠ "" →
  ∃ model,
    Graph.build_agent load_dotenv positional_signature environ model_name
    = ([Graph.ChatOpenAI model 0; Graph.TavilySearch 5;
        Graph.create_react_agent_positional]
       ++ (if positional_signature then []
           else [Graph.create_react_agent_keywords]),
       inr (Graph.Agent model 5))
    ∧ (∀ m, model_name = Some m → m ≠ "" → model = m)
    ∧ (model_name = None ∨ model_name = Some "" →
       ∀ m, load_dotenv environ !! "OPENAI_MODEL" = Some m → m ≠ "" → model = m)
    ∧ (model_name = None ∨ model_name = Some "" →
       load_dotenv environ !! "OPENAI_MODEL" = None
       ∨ load_dotenv environ !! "OPENAI_MODEL" = Some "" →
       model = "gpt-4o-mini").
Proof.
  intros H1 Hk1 H2 Hk2.
  destruct (BuildMore.build_agent_with_keys load_dotenv positional_signature
              environ model_name k1 k2) as (model & Hrun & Hmodel); try done.
  exists model. split; [done|]. rewrite Hmodel. split; [|split].
  - intros m -> Hm. by destruct m.
  - intros [-> | ->] m -> Hm; by destruct m.
  - by intros [-> | ->] [-> | ->].
Qed.

Lemma build_agent_calls_and_model_witness :
  ∃ model,
    Graph.build_agent (λ env, env) false
      {["OPENAI_API_KEY" := "sk-test"; "TAVILY_API_KEY" := "tvly-test";
        "OPENAI_MODEL" := "gpt-4o"]} (Some "")
    = ([Graph.ChatOpenAI model 0; Graph.TavilySearch 5;
        Graph.create_react_agent_positional]
       ++ [Graph.create_react_agent_keywords],
       inr (Graph.Agent model 5))
    ∧ (∀ m, Some "" = Some m → m ≠ "" → model = m)
    ∧ (Some "" = None ∨ Some "" = Some "" →
       ∀ m, ({["OPENAI_API_KEY" := "sk-test"; "TAVILY_API_KEY" := "tvly-test";
               "OPENAI_MODEL" := "gpt-4o"]} : gmap string string)
            !! "OPENAI_MODEL" = Some m → m ≠ "" → model = m)
    ∧ (Some "" = None ∨ Some "" = Some "" →
       ({["OPENAI_API_KEY" := "sk-test"; "TAVILY_API_KEY" := "tvly-test";
          "OPENAI_MODEL" := "gpt-4o"]} : gmap string string)
       !! "OPENAI_MODEL" = None
       ∨ ({["OPENAI_API_KEY" := "sk-test"; "TAVILY_API_KEY" := "tvly-test";
            "OPENAI_MODEL" := "gpt-4o"]} : gmap string string)
         !! "OPENAI_MODEL" = Some "" →
       model = "gpt-4o-mini").
Proof.
  apply (build_agent_calls_and_model (λ env, env) false _ (Some "")
           "sk-test" "tvly-test"); (reflexivity || discriminate).
Defined.

(** ** The answer among the scanned messages *)

Module SelfGround.

Lemma filter_all (P : string → Prop) `{∀ x, Decision (P x)} (l : list string) :
  (∀ x, x ∈ l → P x) → filter P l = l.
Proof.
  induction l as [|x l IH]; intros Hall; [done|].
  rewrite filter_cons_True by (apply Hall; left).
  f_equal. apply IH. intros y Hy. apply Hall. by right.
Qed.

Lemma first_occurrences_nil_inv (l : list string) :
  first_occurrences l = [] → l = [].
Proof. by destruct l. Qed.

(** When every cited URL is allowed, all citations are kept. *)
Lemma kept_citations_all answer_text (allowed_urls : list string) :
  (∀ u, u ∈ extract_urls (Some answer_text) → u ∈ allowed_urls) →
  kept_citations answer_text allowed_urls
  = first_occurrences (Str.split_hash_0 <$> extract_urls (Some answer_text)).
Proof.
  intros Hall. unfold kept_citations. f_equal. apply filter_all.
  intros b (u & -> & Hu)%list_elem_of_fmap. by apply list_elem_of_fmap_2, Hall.
Qed.

Lemma enforce_all_cited
    (list_of_set : gset string → list string)
    (messages : list message) (msg : message) (answer_text : string) :
  msg ∈ messages →
  scanned msg = true →
  py_str (content_of msg) = answer_text →
  extract_urls (Some answer_text) ≠ [] →
  enforce_grounded_citations list_of_set answer_text
    (collect_urls_from_langgraph_messages messages)
  = first_occurrences (Str.split_hash_0 <$> extract_urls (Some answer_text)).
Proof.
  intros Hmsg Hscan Htext Hcited.
  assert (∀ u, u ∈ extract_urls (Some answer_text) →
               u ∈ collect_urls_from_langgraph_messages messages) as Hall.
  { intros u Hu. apply CollectMore.elem_of_collect. exists msg. by rewrite Htext. }
  assert (collect_urls_from_langgraph_messages messages ≠ []) as Hne.
  { destruct (extract_urls (Some answer_text)) as [|u us] eqn:Hus; [done|].
    intros Hnil. specialize (Hall u). rewrite Hnil in Hall.
    eapply elem_of_nil, Hall. left. }
  rewrite Ground.enforce_cases by done.
  rewrite (kept_citations_all _ _ Hall).
  destruct (first_occurrences _) as [|k ks] eqn:Hk; [|done].
  apply first_occurrences_nil_inv, fmap_nil_inv in Hk. done.
Qed.

End SelfGround.

(** X21: when the transcript holds a scanned message whose content is the
    answer text itself, the filter removes nothing: it returns, without
    their fragments and each once, all the URLs the answer cites. *)
Theorem enforce_keeps_all_when_answer_is_scanned
    (list_of_set : gset string → list string)
    (messages : list message) (msg : message) (answer_text : string) :
  msg ∈ messages →
  scanned msg = true →
  py_str (content_of msg) = answer_text →
  extract_urls (Some answer_text) ≠ [] →
  enforce_grounded_citations list_of_set answer_text
    (collect_urls_from_langgraph_messages messages)
  = first_occurrences (Str.split_hash_0 <$> extract_urls (Some answer_text)).
Proof. apply SelfGround.enforce_all_cited. Qed.

Lemma enforce_keeps_all_when_answer_is_scanned_witness :
  let answer := "Sources: https://made-up.example/a#x and https://a.com/1" in
  let final := Message None None (Some (PyStr answer)) "" in
  let search :=
    Message None (Some (PyStr "tavily_search"))
      (Some (PyStr "[{url: https://a.com/1}]")) "" in
  enforce_grounded_citations elements answer
    (collect_urls_from_langgraph_messages [search; final])
  = first_occurrences (Str.split_hash_0 <$> extract_urls (Some answer)).
Proof.
  cbv zeta.
  apply (enforce_keeps_all_when_answer_is_scanned elements _
           (Message None None
              (Some (PyStr "Sources: https://made-up.example/a#x and https://a.com/1"))
              "")).
  - right. left.
  - reflexivity.
  - reflexivity.
  - by vm_compute.
Defined.

(** X22: [invoke_agent] followed by the collector and the filter, as the
    chat page chains them: when the last message of the agent's result has
    no tool-name label and its content is a text that contains "http", that
    text is the final text, its URLs are all among the collected ones, and
    the filter returns every URL it cites. *)
Theorem invoke_agent_answer_grounds_itself
    (PREAMBLE : string)
    (agent : list (string * string) → option (list Invoke.lg_message))
    (list_of_set : gset string → list string)
    (history : list Graph.history_item) (preamble_override : option string)
    (earlier : list Invoke.lg_message) (final : Invoke.lg_message)
    (text : string) :
  let out := Invoke.invoke_agent PREAMBLE agent history preamble_override in
  Invoke.raw out = Some (earlier ++ [final]) →
  truthy (tool_name_of (Invoke.seen_as final)) = false →
  attr_content (Invoke.seen_as final) = Some (PyStr text) →
  Str.contains "http" text = true →
  extract_urls (Some text) ≠ [] →
  Invoke.final_text out = PyStr text
  ∧ enforce_grounded_citations list_of_set text
      (collect_urls_from_langgraph_messages
         (Invoke.seen_as <$> default [] (Invoke.raw out)))
    = first_occurrences (Str.split_hash_0 <$> extract_urls (Some text)).
Proof.
  cbv zeta. unfold Invoke.invoke_agent. cbn [Invoke.raw Invoke.final_text].
  intros -> Hlabel Hcontent Hhttp Hcited. cbn [default from_option].
  assert (text ≠ "") as Htext by (intros ->; done).
  assert (content_of (Invoke.seen_as final) = PyStr text) as Hc.
  { unfold content_of. rewrite Hcontent. cbn. by destruct text. }
  split.
  - unfold id. rewrite last_snoc, Hcontent. unfold py_or. cbn. by destruct text.
  - apply (SelfGround.enforce_all_cited _ _ (Invoke.seen_as final)).
    + unfold id. rewrite fmap_app. apply elem_of_app. right. left.
    + unfold scanned. by rewrite Hlabel, Hc.
    + by rewrite Hc.
    + done.
Qed.

Lemma invoke_agent_answer_grounds_itself_witness :
  let answer := "Sources: https://made-up.example/a#x and https://a.com/1" in
  let final :=
    Invoke.LgMessage (Message None None (Some (PyStr answer)) "") None in
  let search :=
    Invoke.LgMessage
      (Message None (Some (PyStr "tavily_search"))
         (Some (PyStr "[{url: https://a.com/1}]")) "") None in
  let out :=
    Invoke.invoke_agent "Be helpful." (λ _, Some [search; final])
      [Graph.Pair (PyStr "user") (PyStr "hi")] None in
  Invoke.final_text out = PyStr answer
  ∧ enforce_grounded_citations elements answer
      (collect_urls_from_langgraph_messages
         (Invoke.seen_as <$> default [] (Invoke.raw out)))
    = first_occurrences (Str.split_hash_0 <$> extract_urls (Some answer)).
Proof.
  intros answer final search out.
  apply (invoke_agent_answer_grounds_itself "Be helpful."
           (λ _, Some [search; final]) elements
           [Graph.Pair (PyStr "user") (PyStr "hi")] None [search] final answer);
    (reflexivity || by vm_compute).
Defined.

(** X23: [invoke_agent] hands the agent a message list led by a system
    message that contains the override, or [PREAMBLE] when the override is
    [None] or empty, and followed by the normalised history or its tail;
    when the result has no messages the final text and the tool trace are
    empty. *)
Theorem invoke_agent_sends_preamble_first
    (PREAMBLE : string)
    (agent : list (string * string) → option (list Invoke.lg_message))
    (history : list Graph.history_item) (preamble_override : option string) :
  let out := Invoke.invoke_agent PREAMBLE agent history preamble_override in
  let preamble :=
    match preamble_override with
    | None | Some EmptyString => PREAMBLE
    | Some p => p
    end in
  (∃ content rest,
     Invoke.raw out = agent (("system", content) :: rest)
     ∧ Str.contains preamble content = true
     ∧ (rest = Graph._normalize_history history
        ∨ ("system", content) :: rest = Graph._normalize_history history))
  ∧ (Invoke.raw out = None ∨ Invoke.raw out = Some [] →
     Invoke.final_text out = PyStr "" ∧ Invoke.tool_trace out = []).
Proof.
  cbv zeta. unfold Invoke.invoke_agent. cbn [Invoke.raw Invoke.final_text Invoke.tool_trace].
  assert (Agent.effective_preamble PREAMBLE preamble_override
          = match preamble_override with
            | None | Some EmptyString => PREAMBLE
            | Some p => p
            end) as -> by by destruct preamble_override as [[|]|].
  set (preamble := match preamble_override with
                   | None | Some EmptyString => PREAMBLE
                   | Some p => p
                   end).
  split.
  - destruct (GraphFacts.inject_head history preamble)
      as (content & rest & Hhead & Hc).
    exists content, rest. rewrite Hhead. split; [done|]. split; [done|].
    unfold Graph._inject_preamble in Hhead.
    destruct (Graph._normalize_history history) as [|[role c] h].
    + left. by injection Hhead as _ <-.
    + destruct (_ && _); [by right | left; by injection Hhead as _ <-].
  - by intros [-> | ->].
Qed.

(** ** utils/websum.py *)

Module WebsumFacts.

Import Websum.

#[local] Arguments String.append !_ _ / : simpl nomatch.

Lemma take_length n : ∀ s, String.length (take n s) = n `min` String.length s.
Proof.
  induction n as [|n IH]; intros [|c s]; simpl; try done. by rewrite IH.
Qed.

Lemma take_prefix n : ∀ s, Str.startswith (take n s) s = true.
Proof.
  induction n as [|n IH]; intros [|c s]; simpl; try done.
  by rewrite decide_True.
Qed.

Lemma take_all n : ∀ s, String.length s ≤ n → take n s = s.
Proof.
  induction n as [|n IH]; intros [|c s]; simpl; try done; [lia|].
  intros Hlen. rewrite IH; [done | lia].
Qed.

Lemma rstrip_blank_split s :
  ∃ tail, s = rstrip s +:+ tail ∧ Str.all Char.isspace tail = true.
Proof.
  induction s as [|c s (tail & Hs & Hall)]; simpl.
  - by exists "".
  - destruct (rstrip s) as [|d r] eqn:Hr.
    + destruct (Char.isspace c) eqn:Hc.
      * exists (String c tail). simpl in *. subst s. by rewrite Hc, Hall.
      * exists tail. simpl in *. by subst s.
    + exists tail. split; [|done]. simpl in *. congruence.
Qed.

(** What [rstrip] leaves is empty or ends with a character that is not
    white space. *)
Lemma rstrip_not_blank s :
  rstrip s ≠ "" → Str.all Char.isspace (rstrip s) = false.
Proof.
  induction s as [|c s IH]; cbn [rstrip]; [done|].
  destruct (rstrip s) as [|d r] eqn:Hr.
  - destruct (Char.isspace c) eqn:Hc; [done|]. intros _. simpl. by rewrite Hc.
  - intros _.
    change (Char.isspace c && Str.all Char.isspace (String d r) = false).
    rewrite IH by done. apply andb_false_r.
Qed.

Lemma lstrip_blank s : lstrip s = "" ↔ Str.all Char.isspace s = true.
Proof.
  induction s as [|c s IH]; simpl; [done|].
  destruct (Char.isspace c); simpl; [done|]. split; discriminate.
Qed.

(** [s.strip()] is empty exactly when [s] is white space throughout. *)
Lemma strip_blank s : strip s = "" ↔ Str.all Char.isspace s = true.
Proof.
  unfold strip. rewrite lstrip_blank.
  destruct (rstrip_blank_split s) as (tail & Hs & Htail).
  destruct (decide (rstrip s = "")) as [Hr | Hr].
  - rewrite Hr. rewrite Hr in Hs. simpl in Hs. by subst tail.
  - rewrite (rstrip_not_blank s Hr). split; [done|].
    intros Hall. rewrite Hs, ReMore.all_app in Hall.
    apply andb_true_iff in Hall as [Hall _].
    by rewrite rstrip_not_blank in Hall.
Qed.

End WebsumFacts.

(** X24: for a cap that is not negative, [_load_url_text] returns at most
    that many characters, a prefix of the page contents joined by blank
    lines (empty contents left out), and the whole of it when it fits. *)
Theorem load_url_text_capped
    (load : string → list string) (url : string) (max_chars : Z) :
  (0 ≤ max_chars)%Z →
  let joined :=
    Py.join (String LF (String LF "")) (filter (λ c, c ≠ "") (load url)) in
  let text := Websum._load_url_text load url max_chars in
  (Z.of_nat (String.length text) ≤ max_chars)%Z
  ∧ Str.startswith text joined = true
  ∧ ((Z.of_nat (String.length joined) ≤ max_chars)%Z → text = joined).
Proof.
  intros Hcap. cbv zeta. unfold Websum._load_url_text, Websum.slice_to.
  rewrite (proj2 (Z.leb_le 0 max_chars) Hcap).
  split; [rewrite WebsumFacts.take_length; lia|].
  split; [apply WebsumFacts.take_prefix|].
  intros Hfit. apply WebsumFacts.take_all. lia.
Qed.

Lemma load_url_text_capped_witness :
  let load := λ _ : string, ["Title"; ""; "Body text"] in
  let joined :=
    Py.join (String LF (String LF ""))
      (filter (λ c, c ≠ "") (load "https://a.com/1")) in
  let text := Websum._load_url_text load "https://a.com/1" 8 in
  (Z.of_nat (String.length text) ≤ 8)%Z
  ∧ Str.startswith text joined = true
  ∧ ((Z.of_nat (String.length joined) ≤ 8)%Z → text = joined).
Proof.
  apply (load_url_text_capped (λ _, ["Title"; ""; "Body text"]) "https://a.com/1" 8).
  lia.
Defined.

(** X25: when the loaded page text is empty or white space only,
    [summarize_url] returns the failure notice and has called the loader
    only: no model is built or invoked.  Otherwise it builds the model at
    temperature 0 and invokes it once, on a prompt that holds at most 12000
    characters of page text. *)
Theorem summarize_url_skips_model_on_blank_page
    (load : string → list string)
    (llm : string → string → option pyval * string)
    (INSTRUCTIONS : string) (url model_name : string) :
  let text := Websum._load_url_text load url 12000 in
  let run := Websum.summarize_url load llm INSTRUCTIONS url model_name in
  (Str.all Char.isspace text = true →
   run = ([Websum.WebBaseLoader_load url], PyStr Websum.FAILED))
  ∧ (Str.all Char.isspace text = false →
     run.1 = [Websum.WebBaseLoader_load url; Websum.ChatOpenAI model_name 0;
              Websum.llm_invoke (Websum.prompt_for INSTRUCTIONS text)]
     ∧ (Z.of_nat (String.length (Websum.prompt_for INSTRUCTIONS text))
        ≤ Z.of_nat (String.length INSTRUCTIONS) + 12046)%Z).
Proof.
  cbv zeta. unfold Websum.summarize_url.
  set (text := Websum._load_url_text load url 12000).
  split.
  - intros Hblank%WebsumFacts.strip_blank. by rewrite Hblank.
  - intros Hblank.
    destruct (Websum.strip text) as [|c r] eqn:Hstrip.
    { apply WebsumFacts.strip_blank in Hstrip. congruence. }
    split; [done|].
    assert (Z.of_nat (String.length text) ≤ 12000)%Z as Hlen.
    { unfold text, Websum._load_url_text, Websum.slice_to.
      change (0 <=? 12000)%Z with true. cbv iota.
      rewrite WebsumFacts.take_length. lia. }
    unfold Websum.prompt_for. rewrite !HistoryMore.length_append.
    cbn [String.length]. lia.
Qed.

(** ** utils/ui.py *)

Module UiFacts.

Import Ui.

#[local] Arguments String.append !_ _ / : simpl nomatch.

Lemma replace_char_app c by_ (a b : string) :
  replace_char c by_ (a +:+ b) = replace_char c by_ a +:+ replace_char c by_ b.
Proof.
  induction a as [|d a IH]; simpl; [done|].
  case_decide; rewrite IH; [by rewrite StrFacts.app_assoc | done].
Qed.

Lemma has_char_app c (a b : string) :
  Str.has_char c (a +:+ b) = Str.has_char c a || Str.has_char c b.
Proof.
  induction a as [|d a IH]; simpl; [done|]. by case_decide.
Qed.

(** The five replacements and the one of the line feed act character by
    character. *)
Lemma escape_cons c s :
  _escape_user_text (Some (String c s))
  = escaped_char c +:+ _escape_user_text (Some s).
Proof.
  unfold _escape_user_text, html_escape, escaped_char.
  cbn [replace_char]. unfold LF.
  repeat (case_decide; [subst c; rewrite ?replace_char_app; reflexivity|
                        cbn [replace_char]]).
  reflexivity.
Qed.

Lemma unescape_escape (text : string) :
  unescape_from 0 (_escape_user_text (Some text)) = text.
Proof.
  induction text as [|c text IH]; [done|].
  rewrite escape_cons. unfold escaped_char, LF.
  simpl in IH.
  repeat (case_decide; [subst c; simpl; by rewrite IH|]).
  simpl. rewrite !decide_False by congruence. by rewrite IH.
Qed.

End UiFacts.

(** X26: what [_escape_user_text] returns holds no double quote, no single
    quote and no line feed; it holds [<] or [>] only when the text has a
    line feed (in the tag that replaces it); [None] gives the empty text. *)
Theorem escape_user_text_safe (text : string) :
  let out := Ui._escape_user_text (Some text) in
  Str.has_char "034"%char out = false
  ∧ Str.has_char "'"%char out = false
  ∧ Str.has_char LF out = false
  ∧ (Str.has_char LF text = false →
     Str.has_char "<"%char out = false ∧ Str.has_char ">"%char out = false)
  ∧ Ui._escape_user_text None = "".
Proof.
  cbv zeta. induction text as [|c text (IH1 & IH2 & IH3 & IH4 & _)]; [done|].
  rewrite UiFacts.escape_cons, !UiFacts.has_char_app, IH1, IH2, IH3.
  assert (Str.has_char "034"%char (escaped_char c) = false
          ∧ Str.has_char "'"%char (escaped_char c) = false
          ∧ Str.has_char LF (escaped_char c) = false
          ∧ (c ≠ LF → Str.has_char "<"%char (escaped_char c) = false
                      ∧ Str.has_char ">"%char (escaped_char c) = false))
    as (-> & -> & -> & Hc).
  { unfold escaped_char, LF.
    repeat (case_decide; [subst c; by vm_compute|]).
    cbn [Str.has_char]. by rewrite !decide_False by congruence. }
  split; [done|]. split; [done|]. split; [done|]. split; [|done].
  cbn [Str.has_char]. case_decide as Hlf; [done|]. intros Htext.
  destruct Hc as [-> ->]; [intros E; by apply Hlf | by apply IH4].
Qed.

(** X27: escaping loses nothing: reading the entities and the line-break
    tag back gives the text, so different texts are escaped differently. *)
Theorem escape_user_text_round_trip (text : string) :
  unescape_from 0 (Ui._escape_user_text (Some text)) = text.
Proof. apply UiFacts.unescape_escape. Qed.

(** ** The extractor over all of Unicode *)

Example uni_extract_em_space :
  Uni.extract_urls
    (Some (Uni.of_string "http://a.com/x" ++ [8195%N] ++ Uni.of_string "y"))
  = [Uni.of_string "http://a.com/x"].
Proof. by vm_compute. Qed.

Example uni_extract_long_s :
  Uni.extract_urls
    (Some (Uni.of_string "see http" ++ [383%N] ++ Uni.of_string "://a.com/x."))
  = [Uni.of_string "http" ++ [383%N] ++ Uni.of_string "://a.com/x"].
Proof. by vm_compute. Qed.

Module UniFacts.

#[local] Open Scope N_scope.

#[local] Arguments Uni.of_string : simpl never.

#[local] Ltac bind_step := cbv beta iota delta [mbind option_bind].

Lemma some_pair_inv {A B} (a a' : A) (b b' : B) :
  Some (a, b) = Some (a', b') → a = a' ∧ b = b'.
Proof. by intros [= -> ->]. Qed.

Lemma uni_lits_ignorecase_spec pat : ∀ s m rest,
  Uni.lits_ignorecase pat s = Some (m, rest) →
  s = m ++ rest ∧ Forall2 (λ l c, Uni.accepts_ignorecase l c = true) pat m.
Proof.
  induction pat as [|l pat IH]; intros s m rest; simpl.
  - intros [= <- <-]. by split; [|constructor].
  - destruct s as [|c r]; [done|].
    destruct (Uni.accepts_ignorecase l c) eqn:Hl; [|done].
    destruct (Uni.lits_ignorecase pat r) as [[m' rest']|] eqn:E; simpl; [|done].
    intros [= <- <-]. destruct (IH _ _ _ E) as [-> Hm].
    split; [done | by constructor].
Qed.

Lemma uni_lits_ignorecase_complete pat m : ∀ rest,
  Forall2 (λ l c, Uni.accepts_ignorecase l c = true) pat m →
  Uni.lits_ignorecase pat (m ++ rest) = Some (m, rest).
Proof.
  intros rest Hm. induction Hm as [|l c pat m Hl Hm IH]; simpl; [done|].
  by rewrite Hl, IH.
Qed.

Lemma uni_lits_spec pat : ∀ s m rest,
  Uni.lits pat s = Some (m, rest) → m = pat ∧ s = pat ++ rest.
Proof.
  induction pat as [|l pat IH]; intros s m rest; simpl.
  - by intros [= <- <-].
  - destruct s as [|c r]; [done|]. case_decide as Hl; [|done].
    destruct (Uni.lits pat r) as [[m' rest']|] eqn:E; simpl; [|done].
    intros [= <- <-]. destruct (IH _ _ _ E) as [-> ->]. by subst.
Qed.

Lemma uni_lits_complete pat rest : Uni.lits pat (pat ++ rest) = Some (pat, rest).
Proof.
  induction pat as [|l pat IH]; simpl; [done|].
  rewrite decide_True by done. by rewrite IH.
Qed.

Lemma uni_span_url_chars_spec s : ∀ run rest,
  Uni.span_url_chars s = (run, rest) →
  s = run ++ rest ∧ forallb Uni.url_char run = true.
Proof.
  induction s as [|c s IH]; intros run rest; simpl.
  - by intros [= <- <-].
  - destruct (Uni.url_char c) eqn:Hc.
    + destruct (Uni.span_url_chars s) as [run' rest'].
      intros [= <- <-]. destruct (IH run' rest') as [-> Hall]; [done|].
      simpl. by rewrite Hc.
    + by intros [= <- <-].
Qed.

Lemma uni_span_url_chars_run run :
  forallb Uni.url_char run = true → Uni.span_url_chars run = (run, []).
Proof.
  induction run as [|c run IH]; simpl; [done|].
  intros [Hc Hrun]%andb_true_iff. by rewrite Hc, IH.
Qed.

Lemma uni_colon_slashes_run_spec s tl rest :
  Uni.colon_slashes_run s = Some (tl, rest) →
  s = tl ++ rest
  ∧ ∃ run, tl = Uni.of_string "://" ++ run ∧ run ≠ []
           ∧ forallb Uni.url_char run = true.
Proof.
  unfold Uni.colon_slashes_run.
  destruct (Uni.lits (Uni.of_string "://") s) as [[sep r]|] eqn:E;
    bind_step; [|done].
  destruct (Uni.span_url_chars r) as [run rest'] eqn:Er.
  apply uni_lits_spec in E as [-> ->]. apply uni_span_url_chars_spec in Er as [-> Hall].
  destruct run as [|c run]; [done|]. intros [<- <-]%some_pair_inv.
  split; [by rewrite <- app_assoc | by eexists].
Qed.

(** The shape of a match. *)
Lemma uni_match_here_inv s g rest :
  Uni.match_here s = Some (g, rest) →
  s = g ++ rest
  ∧ ∃ http s1 run,
      g = http ++ s1 ++ Uni.of_string "://" ++ run
      ∧ Forall2 (λ l c, Uni.accepts_ignorecase l c = true) (Uni.of_string "http") http
      ∧ (Forall2 (λ l c, Uni.accepts_ignorecase l c = true) (Uni.of_string "s") s1
         ∨ s1 = [])
      ∧ run ≠ []
      ∧ forallb Uni.url_char run = true.
Proof.
  unfold Uni.match_here.
  destruct (Uni.lits_ignorecase (Uni.of_string "http") s) as [[http r1]|] eqn:E1;
    bind_step; [|done].
  apply uni_lits_ignorecase_spec in E1 as [-> Hh].
  destruct (Uni.lits_ignorecase (Uni.of_string "s") r1) as [[s1 r2]|] eqn:E2.
  - apply uni_lits_ignorecase_spec in E2 as [Hr1 Hs].
    destruct (Uni.colon_slashes_run r2) as [[tl rest']|] eqn:E3.
    + intros [<- <-]%some_pair_inv. apply uni_colon_slashes_run_spec in E3 as [-> (run & -> & ? & ?)].
      subst r1. split; [by rewrite <- !app_assoc|].
      exists http, s1, run. auto.
    + destruct (Uni.colon_slashes_run r1) as [[tl rest']|] eqn:E4; [|done].
      intros [<- <-]%some_pair_inv. apply uni_colon_slashes_run_spec in E4 as [-> (run & -> & ? & ?)].
      split; [by rewrite <- !app_assoc|].
      exists http, [], run. auto.
  - destruct (Uni.colon_slashes_run r1) as [[tl rest']|] eqn:E4; [|done].
    intros [<- <-]%some_pair_inv. apply uni_colon_slashes_run_spec in E4 as [-> (run & -> & ? & ?)].
    split; [by rewrite <- !app_assoc|].
    exists http, [], run. auto.
Qed.

Lemma uni_scan_occurs s : ∀ pos skip m,
  m ∈ Uni.scan pos skip s →
  ∃ pre post, s = pre ++ Uni.group1 m ++ post
    ∧ Uni.start m = (pos + length pre)%nat
    ∧ Uni.match_here (Uni.group1 m ++ post) = Some (Uni.group1 m, post).
Proof.
  induction s as [|c s IH]; intros pos skip m.
  - by intros ?%elem_of_nil.
  - assert (∀ k, m ∈ Uni.scan (S pos) k s →
      ∃ pre post, c :: s = pre ++ Uni.group1 m ++ post
        ∧ Uni.start m = (pos + length pre)%nat
        ∧ Uni.match_here (Uni.group1 m ++ post) = Some (Uni.group1 m, post)) as Hrec.
    { intros k (pre & post & -> & Hst & Hm)%IH.
      exists (c :: pre), post. simpl. repeat split; [lia | done]. }
    cbn [Uni.scan]. destruct skip as [|k]; [|by apply Hrec].
    destruct (Uni.match_here (c :: s)) as [[g rest]|] eqn:E; [|by apply Hrec].
    intros [->|Hin]%elem_of_cons; [|by eapply Hrec].
    exists [], rest. cbn [Uni.group1 Uni.start length app].
    destruct (uni_match_here_inv _ _ _ E) as [Hs _].
    rewrite <- Hs. repeat split; [lia | done].
Qed.

Lemma uni_rstrip_split chars s :
  ∃ tail, s = Uni.rstrip chars s ++ tail ∧ Forall (λ c, c ∈ chars) tail.
Proof.
  induction s as [|c s (tail & Hs & Hall)]; simpl.
  - by exists [].
  - destruct (Uni.rstrip chars s) as [|d r] eqn:Hr.
    + case_decide as Hc.
      * exists (c :: tail). simpl in *. subst s. by split; [|constructor].
      * exists tail. simpl in *. by subst s.
    + exists tail. split; [|done]. simpl in *. congruence.
Qed.

Lemma uni_rstrip_app_kept chars a b :
  Uni.rstrip chars a = a → Uni.rstrip chars (a ++ b) = a ++ Uni.rstrip chars b.
Proof.
  induction a as [|c a IH]; simpl; [done|].
  destruct (Uni.rstrip chars a) as [|d r] eqn:Hr.
  - case_decide as Hc; [done|].
    intros [= <-]. simpl. by destruct (Uni.rstrip chars b).
  - intros [= Ha]. rewrite IH by done. rewrite <- Ha. done.
Qed.

Lemma uni_rstrip_snoc_kept chars a c :
  c ∉ chars → Uni.rstrip chars (a ++ [c]) = a ++ [c].
Proof.
  intros Hc. induction a as [|x a IH]; simpl.
  - by rewrite decide_False.
  - rewrite IH. by destruct a.
Qed.

Lemma uni_rstrip_idemp chars s :
  Uni.rstrip chars (Uni.rstrip chars s) = Uni.rstrip chars s.
Proof.
  induction s as [|c s IH]; simpl; [done|].
  destruct (Uni.rstrip chars s) as [|d r] eqn:Hr.
  - case_decide as Hc; simpl; [done | by rewrite decide_False].
  - simpl in *. by rewrite IH.
Qed.

(** What the `seen`/`urls` loop returns comes from its start or its input. *)
Lemma uni_elem_of_foldl_add_unseen l : ∀ st x,
  x ∈ (foldl Uni.add_unseen st l).2 → x ∈ st.2 ∨ x ∈ l.
Proof.
  induction l as [|u l IH]; intros [seen urls] x; simpl; [auto|].
  case_decide.
  - intros [?|?]%IH; [by left | right; by right].
  - intros [Hx|Hx]%IH; [|right; by right]. cbn [snd] in Hx.
    apply elem_of_app in Hx as [Hx|Hx]; [by left|].
    apply list_elem_of_singleton in Hx as ->. right. by left.
Qed.

Lemma uni_elem_of_extract_urls text u :
  u ∈ Uni.extract_urls (Some text) →
  ∃ m, m ∈ Uni.finditer text ∧ u = Uni.url_of_match m.
Proof.
  destruct text as [|c text]; [by intros ?%elem_of_nil|].
  unfold Uni.extract_urls.
  rewrite <- (foldl_fmap Uni.add_unseen (∅, []) _ Uni.url_of_match).
  intros [?%elem_of_nil|(m & -> & ?)%list_elem_of_fmap]%uni_elem_of_foldl_add_unseen;
    [done | eauto].
Qed.

(** The characters the pattern accepts for its letters fold to them. *)
Lemma uni_accepts_casefold l c :
  Uni.accepts_ignorecase l c = true →
  l = 104 ∨ l = 116 ∨ l = 112 ∨ l = 115 →
  Uni.casefold c = l.
Proof.
  unfold Uni.accepts_ignorecase, Uni.casefold. intros Hacc Hl.
  repeat match goal with
  | |- context [?a <=? ?b] => destruct (N.leb_spec a b)
  | |- context [?a =? ?b] => destruct (N.eqb_spec a b)
  | H : context [?a <=? ?b] |- _ => destruct (N.leb_spec a b)
  | H : context [?a =? ?b] |- _ => destruct (N.eqb_spec a b)
  end; cbn in Hacc |- *; try done; lia.
Qed.

(** And only they do: for the letters of the pattern, folding to the
    letter is being accepted for it. *)
Lemma uni_casefold_accepts l c :
  l = 104 ∨ l = 116 ∨ l = 112 ∨ l = 115 →
  Uni.casefold c = l → Uni.accepts_ignorecase l c = true.
Proof.
  unfold Uni.accepts_ignorecase, Uni.casefold. intros Hl Hc.
  repeat match goal with
  | |- context [?a <=? ?b] => destruct (N.leb_spec a b)
  | |- context [?a =? ?b] => destruct (N.eqb_spec a b)
  | H : context [?a <=? ?b] |- _ => destruct (N.leb_spec a b)
  | H : context [?a =? ?b] |- _ => destruct (N.eqb_spec a b)
  end; cbn in Hc |- *; try done; lia.
Qed.

Lemma uni_scheme_casefold http s1 :
  Forall2 (λ l c, Uni.accepts_ignorecase l c = true) (Uni.of_string "http") http →
  Forall2 (λ l c, Uni.accepts_ignorecase l c = true) (Uni.of_string "s") s1
  ∨ s1 = [] →
  Uni.casefold <$> (http ++ s1 ++ Uni.of_string "://")
  = Uni.of_string "http://"
  ∨ Uni.casefold <$> (http ++ s1 ++ Uni.of_string "://")
    = Uni.of_string "https://".
Proof.
  intros Hh Hs.
  assert (Uni.casefold <$> http = Uni.of_string "http") as Hh'.
  { change (Uni.of_string "http") with [104; 116; 116; 112] in *.
    repeat match goal with H : Forall2 _ (_ :: _) _ |- _ => inv H end.
    match goal with H : Forall2 _ [] _ |- _ => inv H end.
    cbn [fmap list_fmap].
    repeat match goal with
      | H : Uni.accepts_ignorecase _ _ = true |- _ =>
          apply uni_accepts_casefold in H; [rewrite H; clear H | tauto]
      end.
    done. }
  rewrite !fmap_app, Hh'. destruct Hs as [Hs | ->]; [right | by left].
  change (Uni.of_string "s") with [115] in Hs.
  inv Hs. match goal with H : Forall2 _ [] _ |- _ => inv H end.
  cbn [fmap list_fmap].
  match goal with
  | H : Uni.accepts_ignorecase _ _ = true |- _ =>
      apply uni_accepts_casefold in H; [rewrite H | tauto]
  end.
  done.
Qed.

(** The last character of the scheme is not one that is trimmed. *)
Lemma uni_slash_not_trailing : 47 ∉ Uni.TRAILING.
Proof. apply (bool_decide_unpack _). by vm_compute. Qed.

(** Trimming leaves the scheme alone. *)
Lemma uni_rstrip_scheme_kept http s1 run :
  Uni.rstrip Uni.TRAILING (http ++ s1 ++ Uni.of_string "://" ++ run)
  = http ++ s1 ++ Uni.of_string "://" ++ Uni.rstrip Uni.TRAILING run.
Proof.
  rewrite !app_assoc. rewrite uni_rstrip_app_kept; [done|].
  change (Uni.of_string "://") with (Uni.of_string ":/" ++ [47]).
  rewrite !app_assoc. apply uni_rstrip_snoc_kept, uni_slash_not_trailing.
Qed.

(** What [extract_urls] returns for a text, match by match: the scheme,
    and after it the run of the match, trimmed. *)
Lemma uni_extract_urls_shape text u :
  u ∈ Uni.extract_urls (Some text) →
  ∃ pre post http s1 run,
    text = pre ++ (http ++ s1 ++ Uni.of_string "://" ++ run) ++ post
    ∧ u = http ++ s1 ++ Uni.of_string "://" ++ Uni.rstrip Uni.TRAILING run
    ∧ Forall2 (λ l c, Uni.accepts_ignorecase l c = true) (Uni.of_string "http") http
    ∧ (Forall2 (λ l c, Uni.accepts_ignorecase l c = true) (Uni.of_string "s") s1
       ∨ s1 = [])
    ∧ forallb Uni.url_char run = true.
Proof.
  intros (m & Hm & ->)%uni_elem_of_extract_urls.
  apply uni_scan_occurs in Hm as (pre & post & -> & _ & Hm).
  apply uni_match_here_inv in Hm as (_ & http & s1 & run & Hg & Hh & Hs & _ & Hrun).
  exists pre, post, http, s1, run. unfold Uni.url_of_match. rewrite Hg.
  split; [done|]. split; [|done]. apply uni_rstrip_scheme_kept.
Qed.

Lemma uni_rstrip_url_chars chars run :
  forallb Uni.url_char run = true →
  forallb Uni.url_char (Uni.rstrip chars run) = true.
Proof.
  destruct (uni_rstrip_split chars run) as (tail & Hsplit & _).
  intros Hall. rewrite Hsplit, forallb_app in Hall.
  by apply andb_true_iff in Hall as [? _].
Qed.

(** The pattern matches the whole of a scheme followed by a run. *)
Lemma uni_match_here_complete http s1 run :
  Forall2 (λ l c, Uni.accepts_ignorecase l c = true) (Uni.of_string "http") http →
  Forall2 (λ l c, Uni.accepts_ignorecase l c = true) (Uni.of_string "s") s1
  ∨ s1 = [] →
  run ≠ [] →
  forallb Uni.url_char run = true →
  Uni.match_here (http ++ s1 ++ Uni.of_string "://" ++ run)
  = Some (http ++ s1 ++ Uni.of_string "://" ++ run, []).
Proof.
  intros Hh Hs Hne Hrun.
  assert (Uni.colon_slashes_run (Uni.of_string "://" ++ run)
          = Some (Uni.of_string "://" ++ run, [])) as Htail.
  { unfold Uni.colon_slashes_run. rewrite uni_lits_complete. bind_step.
    rewrite (uni_span_url_chars_run run Hrun). by destruct run. }
  unfold Uni.match_here.
  rewrite (uni_lits_ignorecase_complete _ _ _ Hh). bind_step.
  destruct Hs as [Hs | ->].
  - rewrite (uni_lits_ignorecase_complete _ _ _ Hs). bind_step.
    by rewrite Htail.
  - change ([] ++ Uni.of_string "://" ++ run) with (Uni.of_string "://" ++ run).
    replace (Uni.lits_ignorecase (Uni.of_string "s") (Uni.of_string "://" ++ run))
      with (@None (list N * list N)) by done.
    by rewrite Htail.
Qed.

Lemma uni_scan_skip_all s : ∀ pos k, (length s ≤ k)%nat → Uni.scan pos k s = [].
Proof.
  induction s as [|c s IH]; intros pos k Hk; [done|].
  destruct k as [|k]; simpl in *; [lia|]. apply IH. lia.
Qed.

Lemma uni_extract_urls_whole u :
  Uni.match_here u = Some (u, []) →
  Uni.extract_urls (Some u) = [Uni.rstrip Uni.TRAILING u].
Proof.
  intros Hm. destruct u as [|c u]; [done|].
  unfold Uni.extract_urls, Uni.finditer. cbn [Uni.scan]. rewrite Hm.
  rewrite uni_scan_skip_all by (simpl; lia). done.
Qed.

(** The characters the pattern accepts for a letter. *)
Lemma uni_accepts_cases l c :
  Uni.accepts_ignorecase l c = true →
  c = l ∨ c = l - 32 ∨ l = 115 ∧ c = 383.
Proof.
  unfold Uni.accepts_ignorecase. intros Hacc.
  repeat match goal with
  | H : context [?a <=? ?b] |- _ => destruct (N.leb_spec a b)
  | H : context [?a =? ?b] |- _ => destruct (N.eqb_spec a b)
  end; cbn in Hacc; try done; lia.
Qed.

(** A scheme alone, in any case, holds no URL. *)
Lemma uni_extract_urls_bare_scheme http s1 :
  Forall2 (λ l c, Uni.accepts_ignorecase l c = true) (Uni.of_string "http") http →
  Forall2 (λ l c, Uni.accepts_ignorecase l c = true) (Uni.of_string "s") s1
  ∨ s1 = [] →
  Uni.extract_urls (Some (http ++ s1 ++ Uni.of_string "://")) = [].
Proof.
  intros Hh Hs.
  change (Uni.of_string "http") with [104; 116; 116; 112] in Hh.
  change (Uni.of_string "s") with [115] in Hs.
  repeat match goal with H : Forall2 _ (_ :: _) _ |- _ => inv H end.
  match goal with H : Forall2 _ [] _ |- _ => inv H end.
  repeat match goal with
  | H : Uni.accepts_ignorecase _ _ = true |- _ =>
      apply uni_accepts_cases in H as [-> | [-> | [? ->]]]
  end; try done;
  (destruct Hs as [Hs | ->];
   [ inv Hs;
     match goal with H : Forall2 _ [] _ |- _ => inv H end;
     match goal with
     | H : Uni.accepts_ignorecase _ _ = true |- _ =>
         apply uni_accepts_cases in H as [-> | [-> | [? ->]]]
     end; by vm_compute
   | by vm_compute ]).
Qed.

End UniFacts.

(** ** The two extractors agree on U+0000..U+00FF *)

Module UniAgree.

#[local] Arguments String.append !_ _ / : simpl nomatch.
#[local] Arguments Uni.of_string : simpl nomatch.

#[local] Ltac bind_step := cbv beta iota delta [mbind option_bind].

#[local] Ltac pair_step :=
  cbv beta iota delta
    [fmap option_fmap option_map mbind option_bind Uni.of_pair fst snd].

Lemma of_string_app a b :
  Uni.of_string (a +:+ b) = Uni.of_string a ++ Uni.of_string b.
Proof. induction a as [|c a IH]; simpl; [done | by rewrite IH]. Qed.

Lemma of_string_length s : length (Uni.of_string s) = String.length s.
Proof. induction s as [|c s IH]; simpl; [done | by rewrite IH]. Qed.

Lemma code_inj c d : N_of_ascii c = N_of_ascii d → c = d.
Proof.
  intros H. by rewrite <- (ascii_N_embedding c), <- (ascii_N_embedding d), H.
Qed.

Lemma of_string_inj a : ∀ b, Uni.of_string a = Uni.of_string b → a = b.
Proof.
  induction a as [|c a IH]; intros [|d b] H; try done.
  apply (f_equal head) in H as Hc. apply (f_equal tail) in H as Hs.
  simpl in Hc, Hs. f_equal; [apply code_inj; congruence | by apply IH].
Qed.

Lemma elem_of_of_string c chars :
  N_of_ascii c ∈ Uni.of_string chars ↔ Str.has_char c chars = true.
Proof.
  induction chars as [|d chars IH]; simpl.
  - split; [by intros ?%elem_of_nil | done].
  - rewrite elem_of_cons, IH. case_decide as Hc.
    + subst. by split; [|left].
    + split; [intros [?%code_inj|?]; done | by right].
Qed.

Lemma isspace_agree c : Uni.isspace (N_of_ascii c) = Char.isspace c.
Proof. destruct c as [[] [] [] [] [] [] [] []]; vm_compute; reflexivity. Qed.

Lemma url_char_agree c : Uni.url_char (N_of_ascii c) = Re.url_char c.
Proof. destruct c as [[] [] [] [] [] [] [] []]; vm_compute; reflexivity. Qed.

(** Within U+0000..U+00FF the pattern letters accept a character exactly
    when its lower-case form is the letter. *)
Lemma accepts_agree l c :
  Str.has_char l "htps" = true →
  Uni.accepts_ignorecase (N_of_ascii l) (N_of_ascii c)
  = bool_decide (Char.lower c = l).
Proof.
  intros Hl.
  assert (l = "h" ∨ l = "t" ∨ l = "p" ∨ l = "s")%char as Hcases.
  { cbn [Str.has_char] in Hl. repeat case_decide; auto. done. }
  clear Hl. destruct Hcases as [-> | [-> | [-> | ->]]];
    destruct c as [[] [] [] [] [] [] [] []]; vm_compute; reflexivity.
Qed.

Lemma lits_ignorecase_agree pat : ∀ s,
  Str.all (λ l, Str.has_char l "htps") pat = true →
  Uni.lits_ignorecase (Uni.of_string pat) (Uni.of_string s)
  = Uni.of_pair <$> Re.lits_ignorecase pat s.
Proof.
  induction pat as [|l pat IH]; intros s Hpat; [done|].
  cbn [Str.all] in Hpat. apply andb_true_iff in Hpat as [Hl Hpat].
  destruct s as [|c r]; [done|].
  cbn [Uni.of_string Uni.lits_ignorecase Re.lits_ignorecase].
  rewrite accepts_agree by done. rewrite IH by done.
  case_decide; [rewrite bool_decide_eq_true_2 by done
               | by rewrite bool_decide_eq_false_2 by done].
  by destruct (Re.lits_ignorecase pat r) as [[m rest]|].
Qed.

Lemma lits_agree pat : ∀ s,
  Uni.lits (Uni.of_string pat) (Uni.of_string s) = Uni.of_pair <$> Re.lits pat s.
Proof.
  induction pat as [|l pat IH]; intros s; [done|].
  destruct s as [|c r]; [done|].
  cbn [Uni.of_string Uni.lits Re.lits]. rewrite IH.
  destruct (decide (c = l)) as [->|Hc].
  - rewrite decide_True by done.
    by destruct (Re.lits pat r) as [[m rest]|].
  - rewrite decide_False; [done|]. by intros ?%code_inj.
Qed.

Lemma span_url_chars_agree s :
  Uni.span_url_chars (Uni.of_string s) = Uni.of_pair (Re.span_url_chars s).
Proof.
  induction s as [|c s IH]; [done|].
  cbn [Uni.of_string Uni.span_url_chars Re.span_url_chars].
  rewrite url_char_agree, IH.
  destruct (Re.url_char c); [|done].
  by destruct (Re.span_url_chars s).
Qed.

Lemma colon_slashes_run_agree s :
  Uni.colon_slashes_run (Uni.of_string s) = Uni.of_pair <$> Re.colon_slashes_run s.
Proof.
  unfold Uni.colon_slashes_run, Re.colon_slashes_run. rewrite lits_agree.
  destruct (Re.lits "://" s) as [[sep r]|]; [|done].
  pair_step.
  rewrite span_url_chars_agree.
  destruct (Re.span_url_chars r) as [[|c run] rest]; [done|].
  unfold Uni.of_pair. cbn [fst snd]. by rewrite of_string_app.
Qed.

Lemma match_here_agree s :
  Uni.match_here (Uni.of_string s) = Uni.of_pair <$> Re.match_here s.
Proof.
  unfold Uni.match_here, Re.match_here.
  rewrite (lits_ignorecase_agree "http") by done.
  destruct (Re.lits_ignorecase "http" s) as [[http r1]|]; [|done].
  pair_step.
  rewrite (lits_ignorecase_agree "s") by done.
  rewrite (colon_slashes_run_agree r1).
  destruct (Re.lits_ignorecase "s" r1) as [[s1 r2]|].
  - pair_step.
    rewrite (colon_slashes_run_agree r2).
    destruct (Re.colon_slashes_run r2) as [[tl rest]|].
    + pair_step.
      by rewrite !of_string_app.
    + destruct (Re.colon_slashes_run r1) as [[tl rest]|]; [|done].
      pair_step.
      by rewrite !of_string_app.
  - destruct (Re.colon_slashes_run r1) as [[tl rest]|]; [|done].
    pair_step.
    by rewrite !of_string_app.
Qed.

Lemma scan_agree s : ∀ pos skip,
  Uni.scan pos skip (Uni.of_string s) = Uni.of_match <$> Re.scan pos skip s.
Proof.
  induction s as [|c s IH]; intros pos skip; [done|].
  change (Uni.of_string (String c s)) with (N_of_ascii c :: Uni.of_string s).
  cbn [Uni.scan Re.scan]. destruct skip as [|k]; [|apply IH].
  change (N_of_ascii c :: Uni.of_string s) with (Uni.of_string (String c s)).
  rewrite match_here_agree.
  destruct (Re.match_here (String c s)) as [[g rest]|].
  - pair_step.
    rewrite of_string_length, IH. done.
  - cbn [fmap option_fmap option_map]. apply IH.
Qed.

Lemma rstrip_agree chars s :
  Uni.rstrip (Uni.of_string chars) (Uni.of_string s)
  = Uni.of_string (Str.rstrip chars s).
Proof.
  induction s as [|c s IH]; [done|].
  cbn [Uni.of_string Uni.rstrip Str.rstrip]. rewrite IH.
  destruct (Str.rstrip chars s) as [|d r]; [|done].
  cbn [Uni.of_string].
  destruct (Str.has_char c chars) eqn:Hc.
  - rewrite decide_True; [done|]. by apply elem_of_of_string.
  - rewrite decide_False; [done|]. rewrite elem_of_of_string. congruence.
Qed.

(** The `seen`/`urls` loops run in step. *)
Lemma foldl_add_unseen_agree l : ∀ seen seen' urls,
  (∀ u, Uni.of_string u ∈ seen' ↔ u ∈ seen) →
  (foldl Uni.add_unseen (seen', Uni.of_string <$> urls) (Uni.of_string <$> l)).2
  = Uni.of_string <$> (foldl add_unseen (seen, urls) l).2.
Proof.
  induction l as [|u l IH]; intros seen seen' urls Hseen; [done|].
  cbn [fmap list_fmap foldl Uni.add_unseen add_unseen].
  destruct (decide (u ∈ seen)) as [Hu|Hu].
  - rewrite decide_True by by apply Hseen. by apply IH.
  - rewrite decide_False by by rewrite Hseen.
    replace ((Uni.of_string <$> urls) ++ [Uni.of_string u])
      with (Uni.of_string <$> (urls ++ [u])) by by rewrite fmap_app.
    apply IH. intros v. rewrite !elem_of_union, !elem_of_singleton, Hseen.
    split; (intros [?|?]; [left | by right]); [by apply of_string_inj | by subst].
Qed.

(** On a text within U+0000..U+00FF the extractor over all of Unicode
    returns what the extractor over that range returns. *)
Lemma extract_urls_agree (text : string) :
  Uni.extract_urls (Some (Uni.of_string text))
  = Uni.of_string <$> extract_urls (Some text).
Proof.
  destruct text as [|c text]; [done|].
  unfold Uni.extract_urls, extract_urls.
  change (Uni.of_string (String c text))
    with (N_of_ascii c :: Uni.of_string text) at 1.
  cbv beta iota.
  change (N_of_ascii c :: Uni.of_string text) with (Uni.of_string (String c text)).
  rewrite <- (foldl_fmap Uni.add_unseen (∅, []) _ Uni.url_of_match).
  rewrite <- (foldl_fmap add_unseen (∅, []) _ url_of_match).
  unfold Uni.finditer, Re.finditer. rewrite scan_agree.
  assert (Uni.url_of_match <$> (Uni.of_match <$> Re.scan 0 0 (String c text))
          = Uni.of_string <$> (url_of_match <$> Re.scan 0 0 (String c text))) as ->.
  { rewrite <- !list_fmap_compose. apply list_fmap_ext.
    intros i m _. apply (rstrip_agree TRAILING). }
  apply (foldl_add_unseen_agree _ ∅ ∅ []). intros u. set_solver.
Qed.

End UniAgree.

(** C10: a URL returned by [extract_urls] is a contiguous piece of the
    text; it begins with http:// or https://, letter case apart (any of
    the characters the case-insensitive pattern takes for a letter, the
    long s U+017F among them); what follows it in the match, if anything,
    is made of the trimmed characters ".,);]}". *)
Theorem extract_urls_piece_of_text (text u : list N) :
  u ∈ Uni.extract_urls (Some text) →
  ∃ pre tail post,
    text = pre ++ u ++ tail ++ post
    ∧ Forall (λ c, c ∈ Uni.TRAILING) tail
    ∧ Uni.has_scheme u.
Proof.
  intros (pre & post & http & s1 & run & -> & -> & Hh & Hs & _)
    %UniFacts.uni_extract_urls_shape.
  destruct (UniFacts.uni_rstrip_split Uni.TRAILING run) as (tail & Hrun & Htail).
  exists pre, tail, post. split; [|split; [done|]].
  - rewrite Hrun at 1. by rewrite <- !app_assoc.
  - exists (http ++ s1 ++ Uni.of_string "://"), (Uni.rstrip Uni.TRAILING run).
    split; [by rewrite <- !app_assoc|].
    by apply UniFacts.uni_scheme_casefold.
Qed.

Lemma extract_urls_piece_of_text_witness :
  ∃ pre tail post,
    Uni.of_string "(see HTTP" ++ [383%N] ++ Uni.of_string "://x.com/page.)"
    = pre ++ (Uni.of_string "HTTP" ++ [383%N] ++ Uni.of_string "://x.com/page")
      ++ tail ++ post
    ∧ Forall (λ c, c ∈ Uni.TRAILING) tail
    ∧ Uni.has_scheme (Uni.of_string "HTTP" ++ [383%N] ++ Uni.of_string "://x.com/page").
Proof.
  apply (extract_urls_piece_of_text
           (Uni.of_string "(see HTTP" ++ [383%N] ++ Uni.of_string "://x.com/page.)")).
  vm_compute. left.
Defined.

(** X3: extraction is stable: extracting from a URL that [extract_urls]
    returned gives that URL again, unless trimming left nothing but the
    scheme (http:// or https://, letter case apart), from which nothing
    is extracted. *)
Theorem extract_urls_stable (text u : list N) :
  u ∈ Uni.extract_urls (Some text) →
  Uni.extract_urls (Some u) = [u]
  ∨ (Uni.extract_urls (Some u) = [] ∧ Uni.bare_scheme u).
Proof.
  intros (pre & post & http & s1 & run & _ & -> & Hh & Hs & Hrun)
    %UniFacts.uni_extract_urls_shape.
  destruct (Uni.rstrip Uni.TRAILING run) as [|c r] eqn:Hr.
  - right. split; [by apply UniFacts.uni_extract_urls_bare_scheme|].
    by apply UniFacts.uni_scheme_casefold.
  - left. rewrite <- Hr. rewrite UniFacts.uni_extract_urls_whole.
    + by rewrite UniFacts.uni_rstrip_scheme_kept, UniFacts.uni_rstrip_idemp.
    + apply UniFacts.uni_match_here_complete; try done.
      * by rewrite Hr.
      * by apply UniFacts.uni_rstrip_url_chars.
Qed.

Lemma extract_urls_stable_witness :
  Uni.extract_urls (Some (Uni.of_string "http" ++ [383%N] ++ Uni.of_string "://"))
  = [Uni.of_string "http" ++ [383%N] ++ Uni.of_string "://"]
  ∨ (Uni.extract_urls
       (Some (Uni.of_string "http" ++ [383%N] ++ Uni.of_string "://")) = []
     ∧ Uni.bare_scheme (Uni.of_string "http" ++ [383%N] ++ Uni.of_string "://")).
Proof.
  apply (extract_urls_stable
           (Uni.of_string "x http" ++ [383%N] ++ Uni.of_string "://... y")).
  vm_compute. left.
Defined.
